(** * The xv6 buffer cache with hashed buckets (kernel/bio.c)

    A shallow embedding of [binit], [bget], [bread], [bwrite], [brelse],
    [bpin] and [bunpin], and the properties of the lookup / eviction
    engine that follow from it.

    Representation.
    - [struct buf buf[NBUF]] is a list of [buf] records; a [struct buf *]
      into the pool is the index of the slot.
    - The chain hanging off [bcache.buckets[i].next] is the list of the
      slot indices met when following [next] from the dummy head.
    - [uint] fields are [Z] with the wrap-around modulo 2^32 written out.
    - A pointer that walks a chain ([b] in the eviction scan, and so
      [before_least]) is a cursor: the bucket and the number of hops
      from its dummy head.
    - Spin locks carry no data here: acquiring and releasing them is
      recorded in a trace of events that every operation returns.
    - [ticks] is an input of each operation: the value the code reads.
    - An operation is a function from the state before to the result,
      the state after and the trace.  The two halves of [bget] are
      separate functions, so that other calls can run between the miss
      of the fast path and the slow path; the slow path runs under
      [bcache.lock] and is one step, and [scan_with] lets the other
      processors run between the rounds of its scan.
    - A caller that finds the sleep lock of its slot taken is suspended
      in [acquiresleep]: the operation ends with [Sleep], and what is
      left of it runs when the lock is handed over -- nothing more for a
      [bget], lines 208-212 for a [bread] ([bread_resume]). *)

From Stdlib Require Import ZArith List Lia Bool String.
From stdpp Require Import base list.
Import ListNotations.

Local Open Scope Z_scope.

(** ** Constants and machine arithmetic *)

Definition NBUCKET : nat := 13.

(** [uint] arithmetic: the value of a 32-bit unsigned expression. *)
Definition wrap (z : Z) : Z := z mod 2 ^ 32.

(** [#define BUFMAP_HASH(dev, blockno) ((((dev)<<27)|(blockno))%NBUCKET)] *)
Definition BUFMAP_HASH (dev blockno : Z) : nat :=
  Z.to_nat (Z.lor (wrap (Z.shiftl dev 27)) blockno mod Z.of_nat NBUCKET).

Arguments BUFMAP_HASH : simpl never.

(** ** Data model *)

Definition pid := nat.

(** [struct buf] (buf.h is not part of the sources at hand; the fields
    are the ones bio.c uses: [valid], [dev], [blockno], [lock], [refcnt],
    [timestamp], [data]; [refcnt] and [timestamp] are [uint], and [next]
    is carried by the chains).  The sleep lock is its holder, if any. *)
Record buf := Buf {
  valid : Z;
  dev : Z;
  blockno : Z;
  lock : option pid;
  refcnt : Z;
  timestamp : Z;
  data : list Z
}.

(** A buffer of a zero-initialised static [bcache]. *)
Definition zero_buf : buf :=
  {| valid := 0; dev := 0; blockno := 0; lock := None;
     refcnt := 0; timestamp := 0; data := [] |}.

#[export] Instance buf_inhabited : Inhabited buf := populate zero_buf.

(** The cache together with the disk behind it. *)
Record state := State {
  bufs : list buf;
  buckets : list (list nat);
  disk : Z -> Z -> list Z
}.

Definition slot (st : state) (s : nat) : buf := bufs st !!! s.

Definition chain (st : state) (i : nat) : list nat := buckets st !!! i.

(** [*b = f ( *b )] for the pool slot [s]. *)
Definition upd (s : nat) (f : buf -> buf) (st : state) : state :=
  {| bufs := alter f s (bufs st); buckets := buckets st; disk := disk st |}.

Definition set_chain (i : nat) (f : list nat -> list nat) (st : state) : state :=
  {| bufs := bufs st; buckets := alter f i (buckets st); disk := disk st |}.

Definition set_lock (o : option pid) (b : buf) : buf :=
  {| valid := valid b; dev := dev b; blockno := blockno b; lock := o;
     refcnt := refcnt b; timestamp := timestamp b; data := data b |}.

Definition set_refcnt (r : Z) (b : buf) : buf :=
  {| valid := valid b; dev := dev b; blockno := blockno b; lock := lock b;
     refcnt := r; timestamp := timestamp b; data := data b |}.

Definition set_timestamp (t : Z) (b : buf) : buf :=
  {| valid := valid b; dev := dev b; blockno := blockno b; lock := lock b;
     refcnt := refcnt b; timestamp := t; data := data b |}.

(** ** Events and results *)

Inductive spinlock :=
| BcacheLock
| BucketLock (i : nat).

Inductive event :=
| Acquire (l : spinlock)
| Release (l : spinlock)
| Walk (i : nat)               (* the chain of bucket [i] is traversed *)
| AcquireSleep (s : nat)
| ReleaseSleep (s : nat)
| DiskRW (s : nat) (write : bool)
| Panic (msg : string).

(** How a call ends: it returns, it is suspended in [acquiresleep] on a
    slot whose sleep lock somebody holds, or the kernel stops. *)
Inductive result (A : Type) :=
| Ret (a : A)
| Sleep (s : nat)
| Abort (msg : string).
Arguments Ret {A} a.
Arguments Sleep {A} s.
Arguments Abort {A} msg.

Definition spinlock_eqb (a b : spinlock) : bool :=
  match a, b with
  | BcacheLock, BcacheLock => true
  | BucketLock i, BucketLock j => Nat.eqb i j
  | _, _ => false
  end.

Definition is_bucket_lock (l : spinlock) : bool :=
  match l with BucketLock _ => true | BcacheLock => false end.

(** The spin locks held after a trace, most recently acquired first. *)
Definition held_step (h : list spinlock) (e : event) : list spinlock :=
  match e with
  | Acquire l => l :: h
  | Release l => List.filter (fun x => negb (spinlock_eqb x l)) h
  | _ => h
  end.

Definition held (tr : list event) : list spinlock := fold_left held_step tr [].

Definition bucket_locks_held (tr : list event) : nat :=
  length (List.filter is_bucket_lock (held tr)).

(** ** Sleep locks *)

(** Modelled from the spec: sleeplock.c is not part of the sources at
    hand.  The slot's exclusive lock is a blocking lock: acquiring it
    takes it when it is free and suspends the caller otherwise; it
    exposes whether the current caller holds it. *)
Definition holdingsleep (p : pid) (b : buf) : bool :=
  match lock b with
  | Some q => Nat.eqb q p
  | None => false
  end.

Definition acquiresleep (p : pid) (s : nat) (st : state) : result nat * state :=
  match lock (slot st s) with
  | None => (Ret s, upd s (set_lock (Some p)) st)
  | Some _ => (Sleep s, st)
  end.

Definition releasesleep (s : nat) (st : state) : state :=
  upd s (set_lock None) st.

(** ** binit *)

(** One round of the second loop of [binit]: slot [s] is linked at the
    head of bucket 0. *)
Definition binit_link (st : state) (s : nat) : state :=
  set_chain 0 (fun c => s :: c)
    (upd s (fun b => set_lock None (set_refcnt 0 (set_timestamp 0 b))) st).

(** [NBUF] comes from param.h, which is not part of the sources at hand:
    it is a parameter of [binit]. *)
Definition binit (nbuf : nat) : state :=
  fold_left binit_link (seq 0 nbuf)
    {| bufs := replicate nbuf zero_buf;
       buckets := replicate NBUCKET [];
       disk := fun _ _ => [] |}.

(** ** bget *)

Definition has_key (d b : Z) (x : buf) : bool :=
  (dev x =? d) && (blockno x =? b).

(** [for(b = bcache.buckets[key].next; b; b = b->next)
       if(b->dev == dev && b->blockno == blockno) ...]:
    the first slot of the chain that carries the key. *)
Definition find_cached (bs : list buf) (d b : Z) (c : list nat) : option nat :=
  List.find (fun s => has_key d b (bs !!! s)) c.

(** [b->refcnt++; b->timestamp = ticks;] *)
Definition take_ref (ticks : Z) (x : buf) : buf :=
  set_timestamp ticks (set_refcnt (wrap (refcnt x + 1)) x).

Definition op (A : Type) : Type := result A * state * list event.

(** Lines 76-90: the lookup under the lock of the target bucket alone.
    [None] is the miss, after which the caller goes on to the slow path;
    the miss leaves the state as it was and its trace is
    [fast_miss_trace]. *)
Definition bget_fast (p : pid) (ticks d b : Z) (st : state) : option (op nat) :=
  let key := BUFMAP_HASH d b in
  match find_cached (bufs st) d b (chain st key) with
  | Some s =>
      let st1 := upd s (take_ref ticks) st in
      let '(r, st2) := acquiresleep p s st1 in
      Some (r, st2,
            [Acquire (BucketLock key); Walk key; Release (BucketLock key);
             AcquireSleep s])
  | None => None
  end.

Definition fast_miss_trace (d b : Z) : list event :=
  let key := BUFMAP_HASH d b in
  [Acquire (BucketLock key); Walk key; Release (BucketLock key)].

(** A position in a chain: the bucket, and the number of [next] hops
    from its dummy head [&bcache.buckets[i]]. *)
Record cursor := Cursor { bucket : nat; hops : nat }.

(** [c->timestamp].  The dummy heads [bcache.buckets[i]] are static,
    nothing ever writes their [timestamp]: it reads 0. *)
Definition cursor_timestamp (st : state) (c : cursor) : Z :=
  match hops c with
  | O => 0
  | S j => match chain st (bucket c) !! j with
           | Some s => timestamp (slot st s)
           | None => 0
           end
  end.

(** [c->next] *)
Definition cursor_next (st : state) (c : cursor) : option nat :=
  chain st (bucket c) !! hops c.

(** Lines 113-118, from the cursor [(i, j)] on, [rest] being what is
    left of the chain behind it:
    [if(b->next->refcnt == 0 &&
        (before_least == 0 || b->next->timestamp < before_least->timestamp))
       { before_least = b; newfound = 1; }] *)
Fixpoint scan_chain (st : state) (i j : nat) (rest : list nat)
    (acc : option cursor * bool) : option cursor * bool :=
  match rest with
  | [] => acc
  | s :: rest' =>
      let x := slot st s in
      let better :=
        match fst acc with
        | None => true
        | Some c => timestamp x <? cursor_timestamp st c
        end in
      scan_chain st i (S j) rest'
        (if (refcnt x =? 0) && better
         then (Some {| bucket := i; hops := j |}, true)
         else acc)
  end.

(** The variables of the eviction scan, and the events so far. *)
Record scan_state := ScanState {
  before_least : option cursor;
  holding_bucket : option nat;   (* [None] is the initial [(uint)-1] *)
  scan_trace : list event
}.

(** [if(holding_bucket != -1) release(&bcache.buckets_lock[holding_bucket]);] *)
Definition release_holding (h : option nat) : list event :=
  match h with
  | Some i => [Release (BucketLock i)]
  | None => []
  end.

(** One round of the loop of lines 110-128. *)
Definition scan_bucket (st : state) (a : scan_state) (i : nat) : scan_state :=
  let '(bl, newfound) := scan_chain st i 0 (chain st i) (before_least a, false) in
  if newfound
  then {| before_least := bl;
          holding_bucket := Some i;
          scan_trace := scan_trace a ++ [Acquire (BucketLock i); Walk i] ++
                        release_holding (holding_bucket a) |}
  else {| before_least := bl;
          holding_bucket := holding_bucket a;
          scan_trace := scan_trace a ++
            [Acquire (BucketLock i); Walk i; Release (BucketLock i)] |}.

Definition scan_start : scan_state :=
  {| before_least := None; holding_bucket := None; scan_trace := [] |}.

(** The scan after its first [n] rounds. *)
Definition scan_upto (st : state) (n : nat) : scan_state :=
  fold_left (scan_bucket st) (seq 0 n) scan_start.

Definition scan (st : state) : scan_state := scan_upto st NBUCKET.

Arguments scan_upto : simpl never.
Arguments scan : simpl never.

(** Lines 143-147. *)
Definition claim (ticks d b : Z) (x : buf) : buf :=
  {| valid := 0; dev := d; blockno := b; lock := lock x;
     refcnt := 1; timestamp := ticks; data := data x |}.

(** Lines 137-141: unlink the slot behind the cursor and link it at
    the head of bucket [key]. *)
Definition relink (c : cursor) (s key : nat) (st : state) : state :=
  set_chain key (fun l => s :: l)
    (set_chain (bucket c) (fun l => delete (hops c) l) st).

Definition same_bucket (h : option nat) (key : nat) : bool :=
  match h with
  | Some i => Nat.eqb i key
  | None => false
  end.

(** Lines 129-151, [a] being the variables the scan ended with.  The
    scan leaves [before_least] in front of a slot ([scan_inv] below), so
    [before_least->next] is never null; the branch for it stands for
    the fault the dereference would be. *)
Definition bget_evict (a : scan_state) (p : pid) (ticks d b : Z) (st : state)
    : op nat :=
  let key := BUFMAP_HASH d b in
  let tr := [Acquire BcacheLock; Walk key] ++ scan_trace a in
  match before_least a with
  | None =>
      (Abort "bget: no buffers", st,
       tr ++ [Release BcacheLock; Panic "bget: no buffers"])
  | Some c =>
      match cursor_next st c with
      | None => (Abort "null pointer", st, tr)
      | Some s =>
          let moved := negb (same_bucket (holding_bucket a) key) in
          let st1 := if moved then relink c s key st else st in
          let st2 := upd s (claim ticks d b) st1 in
          let '(r, st3) := acquiresleep p s st2 in
          (r, st3,
           tr ++
           (if moved
            then release_holding (holding_bucket a) ++
                 [Acquire (BucketLock key)]
            else []) ++
           [Release (BucketLock key); Release BcacheLock; AcquireSleep s])
      end
  end.

(** Lines 91-151: the slow path, entered after a miss of the fast
    path.  The chain of the target bucket is walked again under
    [bcache.lock]; the lock of the bucket is taken once a match is
    found, around the update of the counters. *)
Definition bget_slow (p : pid) (ticks d b : Z) (st : state) : op nat :=
  let key := BUFMAP_HASH d b in
  match find_cached (bufs st) d b (chain st key) with
  | Some s =>
      let st1 := upd s (take_ref ticks) st in
      let '(r, st2) := acquiresleep p s st1 in
      (r, st2,
       [Acquire BcacheLock; Walk key;
        Acquire (BucketLock key); Release (BucketLock key);
        Release BcacheLock; AcquireSleep s])
  | None => bget_evict (scan st) p ticks d b st
  end.

(** [bget] when nothing runs between its two halves. *)
Definition bget (p : pid) (ticks d b : Z) (st : state) : op nat :=
  match bget_fast p ticks d b st with
  | Some r => r
  | None =>
      let '(r, st', tr) := bget_slow p ticks d b st in
      (r, st', fast_miss_trace d b ++ tr)
  end.

(** ** bread, bwrite, brelse, bpin, bunpin *)

(** Modelled from the spec: virtio_disk.c is not part of the sources at
    hand.  [virtio_disk_rw(b, write)] reads the block of the slot's key
    into its content, or writes the content to that block. *)
Definition virtio_disk_rw (s : nat) (write : bool) (st : state) : state :=
  let x := slot st s in
  if write
  then {| bufs := bufs st; buckets := buckets st;
          disk := fun d' b' =>
            if (d' =? dev x) && (b' =? blockno x) then data x else disk st d' b' |}
  else upd s (fun y =>
          {| valid := valid y; dev := dev y; blockno := blockno y;
             lock := lock y; refcnt := refcnt y; timestamp := timestamp y;
             data := disk st (dev x) (blockno x) |}) st.

Definition set_valid (v : Z) (b : buf) : buf :=
  {| valid := v; dev := dev b; blockno := blockno b; lock := lock b;
     refcnt := refcnt b; timestamp := timestamp b; data := data b |}.

(** Lines 208-212 of [bread], on the slot [bget] returned. *)
Definition bread_fill (s : nat) (st : state) : state * list event :=
  if valid (slot st s) =? 0
  then (upd s (set_valid 1) (virtio_disk_rw s false st), [DiskRW s false])
  else (st, []).

(** [bread] up to its return, or up to the point where its [bget] is
    suspended in [acquiresleep]: the result is then [Sleep s], and the
    call goes on as [bread_resume]. *)
Definition bread (p : pid) (ticks d b : Z) (st : state) : op nat :=
  let '(r, st1, tr) := bget p ticks d b st in
  match r with
  | Ret s => let '(st2, tr2) := bread_fill s st1 in (Ret s, st2, tr ++ tr2)
  | _ => (r, st1, tr)
  end.

(** What is left of a [bread] that was suspended on the sleep lock of
    slot [s], run when the caller is woken: [acquiresleep] takes the
    lock (the caller stays suspended when somebody holds it), [bget]
    returns the slot, and lines 208-212 run on it. *)
Definition bread_resume (p : pid) (s : nat) (st : state) : op nat :=
  let '(r, st1) := acquiresleep p s st in
  match r with
  | Ret s' => let '(st2, tr2) := bread_fill s' st1 in (Ret s', st2, tr2)
  | _ => (r, st1, [])
  end.

Definition bwrite (p : pid) (s : nat) (st : state) : op unit :=
  if negb (holdingsleep p (slot st s))
  then (Abort "bwrite", st, [Panic "bwrite"])
  else (Ret tt, virtio_disk_rw s true st, [DiskRW s true]).

(** [b->refcnt--; if (b->refcnt == 0) b->timestamp = ticks;] *)
Definition drop_ref (ticks : Z) (x : buf) : buf :=
  let r := wrap (refcnt x - 1) in
  if r =? 0 then set_timestamp ticks (set_refcnt r x) else set_refcnt r x.

Definition brelse (p : pid) (ticks : Z) (s : nat) (st : state) : op unit :=
  let x := slot st s in
  if negb (holdingsleep p x)
  then (Abort "brelse", st, [Panic "brelse"])
  else
    let key := BUFMAP_HASH (dev x) (blockno x) in
    (Ret tt, upd s (drop_ref ticks) (releasesleep s st),
     [ReleaseSleep s; Acquire (BucketLock key); Release (BucketLock key)]).

Definition bpin (s : nat) (st : state) : op unit :=
  let x := slot st s in
  let key := BUFMAP_HASH (dev x) (blockno x) in
  (Ret tt, upd s (fun y => set_refcnt (wrap (refcnt y + 1)) y) st,
   [Acquire (BucketLock key); Release (BucketLock key)]).

Definition bunpin (s : nat) (st : state) : op unit :=
  let x := slot st s in
  let key := BUFMAP_HASH (dev x) (blockno x) in
  (Ret tt, upd s (fun y => set_refcnt (wrap (refcnt y - 1)) y) st,
   [Acquire (BucketLock key); Release (BucketLock key)]).

(** ** Sequences of calls *)

(** A call, or the part of a call that one processor runs in one go.
    [Bget] is [bget] on its own, which is also [bread] up to line 207;
    a caller suspended in [acquiresleep] goes on with [BgetWake] when it
    was in a [bget] on its own, and with [BreadWake] when it was in a
    [bread]. *)
Inductive call :=
| Bget (p : pid) (ticks d b : Z)
| BgetSlow (p : pid) (ticks d b : Z)   (* the miss of the fast path came earlier *)
| Bread (p : pid) (ticks d b : Z)
| BgetWake (p : pid) (s : nat)         (* [acquiresleep] goes through, [bget] returns *)
| BreadWake (p : pid) (s : nat)        (* the same in [bread]: [bread_resume] *)
| Bwrite (p : pid) (s : nat)
| Brelse (p : pid) (ticks : Z) (s : nat)
| Bpin (s : nat)
| Bunpin (s : nat).

Definition state_of {A : Type} (r : op A) : state := snd (fst r).
Definition result_of {A : Type} (r : op A) : result A := fst (fst r).
Definition trace_of {A : Type} (r : op A) : list event := snd r.

Definition exec (st : state) (c : call) : state :=
  match c with
  | Bget p t d b => state_of (bget p t d b st)
  | BgetSlow p t d b => state_of (bget_slow p t d b st)
  | Bread p t d b => state_of (bread p t d b st)
  | BgetWake p s => snd (acquiresleep p s st)
  | BreadWake p s => state_of (bread_resume p s st)
  | Bwrite p s => state_of (bwrite p s st)
  | Brelse p t s => state_of (brelse p t s st)
  | Bpin s => state_of (bpin s st)
  | Bunpin s => state_of (bunpin s st)
  end.

Definition run (cs : list call) (st : state) : state := fold_left exec cs st.

(** A whole call of [bread].  When the caller is suspended, [cs] is what
    the processors run until it is woken, and the call goes on from the
    state they leave; when it is not, nothing runs in between. *)
Definition bread_full (p : pid) (ticks d b : Z) (cs : list call) (st : state)
    : op nat :=
  let '(r, st1, tr) := bread p ticks d b st in
  match r with
  | Sleep s =>
      let '(r2, st2, tr2) := bread_resume p s (run cs st1) in
      (r2, st2, tr ++ tr2)
  | _ => (r, st1, tr)
  end.

(** ** Predicates on states *)

(** Number of pool slots that carry the key [(d, b)]. *)
Definition count_key (d b : Z) (st : state) : nat :=
  length (List.filter (has_key d b) (bufs st)).

(** Every entry of every chain is a slot of the pool, and there are
    [NBUCKET] chains. *)
Definition in_pool (st : state) : bool :=
  Nat.eqb (length (buckets st)) NBUCKET &&
  forallb (forallb (fun s => Nat.ltb s (length (bufs st)))) (buckets st).

(** No slot of any chain has a zero reference count. *)
Definition all_referenced (st : state) : bool :=
  forallb (forallb (fun s => negb (refcnt (slot st s) =? 0))) (buckets st).

(** The slot the eviction scan settles on: [before_least->next]. *)
Definition victim_of (a : scan_state) (st : state) : option nat :=
  match before_least a with
  | Some c => cursor_next st c
  | None => None
  end.

Definition victim (st : state) : option nat := victim_of (scan st) st.

(** Every [Walk i] of a trace happens while the lock of bucket [i] is
    held ([h] being the locks held when the trace starts). *)
Fixpoint walks_locked (h : list spinlock) (tr : list event) : bool :=
  match tr with
  | [] => true
  | e :: tr' =>
      match e with
      | Walk i => existsb (spinlock_eqb (BucketLock i)) h
      | _ => true
      end && walks_locked (held_step h e) tr'
  end.

(** The locks of the [Acquire] events of a trace, in order. *)
Definition acquired (tr : list event) : list spinlock :=
  flat_map (fun e => match e with Acquire l => [l] | _ => [] end) tr.

(** Calls that leave the slot [s], whose key is [(d0, b0)], alone:
    lookups of other keys, and releases, pins and unpins of other
    slots. *)
Definition avoids (d0 b0 : Z) (s : nat) (c : call) : bool :=
  match c with
  | Bget _ _ d b | BgetSlow _ _ d b | Bread _ _ d b =>
      negb ((d0 =? d) && (b0 =? b))
  | BgetWake _ _ | BreadWake _ _ | Bwrite _ _ => true
  | Brelse _ _ s' | Bpin s' | Bunpin s' => negb (Nat.eqb s' s)
  end.

(** The slot [s] carries the key [(d0, b0)] and the count [r]. *)
Definition pinned_at (d0 b0 r : Z) (s : nat) (st : state) : Prop :=
  (s < length (bufs st))%nat /\ dev (slot st s) = d0 /\
  blockno (slot st s) = b0 /\ refcnt (slot st s) = r.

(** The invariant of the cache: the chains hold slots of the pool,
    each slot once and in one chain, the one its key hashes to; and two
    slots carry the same key only when the key is (0, 0), the key of the
    zero-initialised pool. *)
Definition cache_inv (st : state) : Prop :=
  in_pool st = true /\
  (forall i, NoDup (chain st i)) /\
  (forall i s, s ∈ chain st i ->
     BUFMAP_HASH (dev (slot st s)) (blockno (slot st s)) = i) /\
  (forall s, (s < length (bufs st))%nat -> exists i, s ∈ chain st i) /\
  (forall s1 s2 d b,
     (s1 < length (bufs st))%nat -> (s2 < length (bufs st))%nat ->
     has_key d b (slot st s1) = true -> has_key d b (slot st s2) = true ->
     (d, b) <> (0, 0) -> s1 = s2).

(** The lock the scan keeps: the one of [holding_bucket]. *)
Definition holding_locks (h : option nat) : list spinlock :=
  match h with
  | Some i => [BucketLock i]
  | None => []
  end.

(** The events of a round of the scan that finds no new candidate. *)
Definition idle_round (i : nat) : list event :=
  [Acquire (BucketLock i); Walk i; Release (BucketLock i)].

(** What holds of a candidate of the scan: it stands in front of a slot
    of its chain whose reference count is zero. *)
Definition candidate_ok (st : state) (c : cursor) : Prop :=
  exists s, cursor_next st c = Some s /\ refcnt (slot st s) = 0.

(** The variables of the scan after [n] rounds. *)
Definition scan_inv (st : state) (n : nat) (a : scan_state) : Prop :=
  match before_least a with
  | None => holding_bucket a = None
  | Some c =>
      holding_bucket a = Some (bucket c) /\ (bucket c < n)%nat /\
      candidate_ok st c
  end.

(** What the other processors can do to the state between two rounds
    of a scan that holds [bcache.lock] and the lock of bucket [h]: keys
    and chains change under [bcache.lock] only, and the counters of a
    slot change under the lock of its bucket only, so the chains, the
    keys and the slots of bucket [h] stay as they are; everything else
    of a slot (count, time stamp, [valid], content, sleep lock) may
    change. *)
Definition interference (h : option nat) (st st' : state) : Prop :=
  buckets st' = buckets st /\
  length (bufs st') = length (bufs st) /\
  (forall s, dev (slot st' s) = dev (slot st s) /\
             blockno (slot st' s) = blockno (slot st s)) /\
  (forall i s, h = Some i -> s ∈ chain st i -> slot st' s = slot st s).

(** The scan with the other processors running: before each round the
    state may have changed as [interference] allows.  [scan_with n st a]
    says that [n] rounds can end in the state [st] with the variables
    [a]. *)
Inductive scan_with : nat -> state -> scan_state -> Prop :=
| scan_with_start st : scan_with 0 st scan_start
| scan_with_round n st a st' :
    scan_with n st a ->
    interference (holding_bucket a) st st' ->
    scan_with (S n) st' (scan_bucket st' a n).

(** The count of slot [s] is not zero before, between and after the
    calls [cs], run from [st]. *)
Fixpoint referenced_through (s : nat) (cs : list call) (st : state) : bool :=
  negb (refcnt (slot st s) =? 0) &&
  match cs with
  | [] => true
  | c :: cs' => referenced_through s cs' (exec st c)
  end.

(** The time stamps of the pool are not negative, as [uint]s are. *)
Definition stamps_nonneg (st : state) : bool :=
  forallb (fun x => 0 <=? timestamp x) (bufs st).

(** No slot of the chains of the buckets below [i] is free. *)
Definition referenced_below (st : state) (i : nat) : bool :=
  forallb (fun i' => forallb (fun s => negb (refcnt (slot st s) =? 0))
                             (chain st i'))
          (seq 0 i).

(** * Properties *)

(** ** Reading and writing slots and chains *)

Lemma BUFMAP_HASH_lt d b : (BUFMAP_HASH d b < NBUCKET)%nat.
Proof.
  unfold BUFMAP_HASH, NBUCKET.
  pose proof (Z.mod_pos_bound (Z.lor (wrap (Z.shiftl d 27)) b) (Z.of_nat 13)).
  lia.
Qed.

Lemma slot_upd_eq s f st :
  (s < length (bufs st))%nat -> slot (upd s f st) s = f (slot st s).
Proof. intros H. unfold slot, upd; simpl. by apply list_lookup_total_alter_eq. Qed.

Lemma slot_upd_ne s s' f st : s <> s' -> slot (upd s f st) s' = slot st s'.
Proof. intros H. unfold slot, upd; simpl. by apply list_lookup_total_alter_ne. Qed.

Lemma slot_upd s s' f st :
  slot (upd s f st) s' = slot st s' \/
  (s' = s /\ (s < length (bufs st))%nat /\ slot (upd s f st) s' = f (slot st s)).
Proof.
  destruct (decide (s = s')) as [->|Hne].
  - destruct (decide (s' < length (bufs st))%nat) as [Hlt|Hge].
    + right. by rewrite slot_upd_eq.
    + left. unfold slot, upd; simpl.
      rewrite !list_lookup_total_alt, list_lookup_alter_eq.
      rewrite (lookup_ge_None_2 (bufs st) s') by lia. done.
  - left. by apply slot_upd_ne.
Qed.

Lemma length_bufs_upd s f st : length (bufs (upd s f st)) = length (bufs st).
Proof. unfold upd; simpl. apply length_alter. Qed.

Lemma chain_set_chain_eq i f st :
  (i < length (buckets st))%nat -> chain (set_chain i f st) i = f (chain st i).
Proof. intros H. unfold chain, set_chain; simpl. by apply list_lookup_total_alter_eq. Qed.

Lemma chain_set_chain_ne i j f st : i <> j -> chain (set_chain i f st) j = chain st j.
Proof. intros H. unfold chain, set_chain; simpl. by apply list_lookup_total_alter_ne. Qed.

Lemma length_buckets_set_chain i f st :
  length (buckets (set_chain i f st)) = length (buckets st).
Proof. unfold set_chain; simpl. apply length_alter. Qed.

Lemma acquiresleep_cases p s st :
  (lock (slot st s) = None /\
   acquiresleep p s st = (Ret s, upd s (set_lock (Some p)) st)) \/
  (lock (slot st s) <> None /\ acquiresleep p s st = (Sleep s, st)).
Proof.
  unfold acquiresleep. destruct (lock (slot st s)); [right | left]; done.
Qed.

(** ** The eviction scan *)

Section Scan.
Variable st : state.

Lemma drop_cons_lookup (l : list nat) j s rest :
  drop j l = s :: rest -> l !! j = Some s /\ drop (S j) l = rest.
Proof.
  intros H. split.
  - pose proof (lookup_drop l j 0) as E. rewrite H in E. simpl in E.
    by rewrite Nat.add_0_r in E.
  - rewrite <- Nat.add_1_r, <- drop_drop, H. done.
Qed.

Lemma scan_chain_ok i rest : forall j acc,
  drop j (chain st i) = rest ->
  (forall c, fst acc = Some c -> candidate_ok st c) ->
  forall c, fst (scan_chain st i j rest acc) = Some c -> candidate_ok st c.
Proof.
  induction rest as [|s rest IH]; intros j acc Hdrop Hacc; simpl; [done|].
  apply drop_cons_lookup in Hdrop as [Hj Hrest].
  apply IH; [done|].
  destruct (refcnt (slot st s) =? 0) eqn:Hr; simpl; [|done].
  destruct (match fst acc with
            | Some c => timestamp (slot st s) <? cursor_timestamp st c
            | None => true
            end); [|done].
  simpl. intros c [= <-]. exists s. split; [done | by apply Z.eqb_eq].
Qed.

(** The flag [newfound] tells whether the candidate moved to the
    bucket being scanned. *)
Lemma scan_chain_flag i rest : forall j bl nf,
  (scan_chain st i j rest (bl, nf) = (bl, nf)) \/
  (exists j', scan_chain st i j rest (bl, nf)
              = (Some {| bucket := i; hops := j' |}, true)).
Proof.
  induction rest as [|s rest IH]; intros j bl nf; simpl; [by left|].
  destruct ((refcnt (slot st s) =? 0) &&
            match bl with
            | Some c => timestamp (slot st s) <? cursor_timestamp st c
            | None => true
            end).
  - destruct (IH (S j) (Some {| bucket := i; hops := j |}) true)
      as [E | [j' E]]; rewrite E; right; eauto.
  - apply IH.
Qed.

Lemma scan_chain_all_referenced i rest : forall j acc,
  forallb (fun s => negb (refcnt (slot st s) =? 0)) rest = true ->
  scan_chain st i j rest acc = acc.
Proof.
  induction rest as [|s rest IH]; intros j acc; simpl; [done|].
  intros [Hs Hrest]%andb_true_iff.
  apply negb_true_iff in Hs. rewrite Hs. simpl. by apply IH.
Qed.

Lemma scan_upto_S n :
  scan_upto st (S n) = scan_bucket st (scan_upto st n) n.
Proof.
  unfold scan_upto. rewrite seq_S, fold_left_app. reflexivity.
Qed.

Lemma scan_bucket_inv n a :
  scan_inv st n a -> scan_inv st (S n) (scan_bucket st a n).
Proof.
  intros Ha. unfold scan_bucket.
  pose proof (scan_chain_ok n (chain st n) 0 (before_least a, false)
                eq_refl) as Hok.
  destruct (scan_chain_flag n (chain st n) 0 (before_least a) false)
    as [E | [j' E]]; rewrite E in *; unfold scan_inv in *; simpl in *.
  - destruct (before_least a) as [c|]; [|done].
    destruct Ha as (? & ? & ?). repeat split; [done | lia | done].
  - repeat split; [lia|]. apply Hok; [|done].
    intros c Hc. rewrite Hc in Ha. tauto.
Qed.

Lemma scan_upto_inv n : scan_inv st n (scan_upto st n).
Proof.
  induction n as [|n IH]; [done|].
  rewrite scan_upto_S. by apply scan_bucket_inv.
Qed.

End Scan.

Lemma scan_inv_scan st : scan_inv st NBUCKET (scan st).
Proof. exact (scan_upto_inv st NBUCKET). Qed.

(** Replace the scan of [st] by a variable that satisfies [scan_inv]. *)
Ltac forget_scan st a Ha :=
  generalize (scan_inv_scan st); generalize (scan st); intros a Ha.

Lemma scan_inv_candidate st n a c :
  scan_inv st n a -> before_least a = Some c ->
  holding_bucket a = Some (bucket c) /\ (bucket c < n)%nat /\
  exists s, cursor_next st c = Some s /\ refcnt (slot st s) = 0.
Proof. unfold scan_inv. intros H Hc. by rewrite Hc in H. Qed.

Lemma victim_of_free st n a s :
  scan_inv st n a -> victim_of a st = Some s -> refcnt (slot st s) = 0.
Proof.
  unfold victim_of. intros Ha Hv.
  destruct (before_least a) as [c|] eqn:Hc; [|done].
  destruct (scan_inv_candidate _ _ _ _ Ha Hc) as (_ & _ & s' & Hs' & Hr).
  congruence.
Qed.

Lemma victim_free st s : victim st = Some s -> refcnt (slot st s) = 0.
Proof. unfold victim. forget_scan st a Ha. by apply victim_of_free with NBUCKET. Qed.

(** ** The ways through the slow path *)

Lemma bget_slow_hit p ticks d b st s :
  find_cached (bufs st) d b (chain st (BUFMAP_HASH d b)) = Some s ->
  bget_slow p ticks d b st =
    (fst (acquiresleep p s (upd s (take_ref ticks) st)),
     snd (acquiresleep p s (upd s (take_ref ticks) st)),
     [Acquire BcacheLock; Walk (BUFMAP_HASH d b);
      Acquire (BucketLock (BUFMAP_HASH d b));
      Release (BucketLock (BUFMAP_HASH d b));
      Release BcacheLock; AcquireSleep s]).
Proof.
  intros Hf. unfold bget_slow. rewrite Hf.
  by destruct (acquiresleep p s (upd s (take_ref ticks) st)).
Qed.

Lemma bget_slow_miss p ticks d b st :
  find_cached (bufs st) d b (chain st (BUFMAP_HASH d b)) = None ->
  bget_slow p ticks d b st = bget_evict (scan st) p ticks d b st.
Proof. intros Hf. unfold bget_slow. by rewrite Hf. Qed.

Lemma bget_evict_panic a p ticks d b st :
  before_least a = None ->
  bget_evict a p ticks d b st =
    (Abort "bget: no buffers", st,
     ([Acquire BcacheLock; Walk (BUFMAP_HASH d b)] ++ scan_trace a) ++
     [Release BcacheLock; Panic "bget: no buffers"]).
Proof. intros Hb. unfold bget_evict. by rewrite Hb. Qed.

Lemma bget_evict_claim a p ticks d b st c s :
  before_least a = Some c ->
  cursor_next st c = Some s ->
  let key := BUFMAP_HASH d b in
  let moved := negb (same_bucket (holding_bucket a) key) in
  let st2 := upd s (claim ticks d b) (if moved then relink c s key st else st) in
  bget_evict a p ticks d b st =
    (fst (acquiresleep p s st2), snd (acquiresleep p s st2),
     ([Acquire BcacheLock; Walk key] ++ scan_trace a) ++
     (if moved
      then release_holding (holding_bucket a) ++ [Acquire (BucketLock key)]
      else []) ++
     [Release (BucketLock key); Release BcacheLock; AcquireSleep s]).
Proof.
  intros Hb Hn. unfold bget_evict. rewrite Hb, Hn. cbv zeta.
  match goal with |- context [acquiresleep p s ?x] =>
    by destruct (acquiresleep p s x) end.
Qed.

(** [acquiresleep] touches the sleep lock of its slot and nothing else. *)
Lemma acquiresleep_frame p s st s' :
  let st' := snd (acquiresleep p s st) in
  valid (slot st' s') = valid (slot st s') /\
  dev (slot st' s') = dev (slot st s') /\
  blockno (slot st' s') = blockno (slot st s') /\
  refcnt (slot st' s') = refcnt (slot st s') /\
  timestamp (slot st' s') = timestamp (slot st s') /\
  data (slot st' s') = data (slot st s') /\
  buckets st' = buckets st /\ disk st' = disk st /\
  length (bufs st') = length (bufs st).
Proof.
  destruct (acquiresleep_cases p s st) as [[_ E]|[_ E]]; rewrite E; simpl;
    [|done].
  rewrite length_alter.
  destruct (slot_upd s s' (set_lock (Some p)) st) as [E'|(-> & _ & E')];
    rewrite E'; done.
Qed.

Lemma slot_relink c s key st s' : slot (relink c s key st) s' = slot st s'.
Proof. reflexivity. Qed.

(** Membership of a chain entry in the pool. *)
Lemma in_pool_length st : in_pool st = true -> length (buckets st) = NBUCKET.
Proof. unfold in_pool. intros [H _]%andb_true_iff. by apply Nat.eqb_eq. Qed.

Lemma in_pool_chain st i s :
  in_pool st = true -> s ∈ chain st i -> (s < length (bufs st))%nat.
Proof.
  unfold in_pool. intros [_ H]%andb_true_iff Hs.
  unfold chain in Hs. rewrite list_lookup_total_alt in Hs.
  destruct (buckets st !! i) as [l|] eqn:Hl; simpl in Hs.
  - rewrite forallb_forall in H.
    specialize (H l). rewrite <- list_elem_of_In in H.
    specialize (H (list_elem_of_lookup_2 _ _ _ Hl)).
    rewrite forallb_forall in H. apply Nat.ltb_lt, H.
    by apply list_elem_of_In.
  - by apply elem_of_nil in Hs.
Qed.

Lemma cursor_next_in_pool st c s :
  in_pool st = true -> cursor_next st c = Some s -> (s < length (bufs st))%nat.
Proof.
  intros Hp Hn. apply (in_pool_chain st (bucket c)); [done|].
  by apply list_elem_of_lookup_2 in Hn.
Qed.

(** ** No eviction of a referenced buffer *)

Lemma bget_evict_rekeys a p ticks d b st s :
  scan_inv st NBUCKET a ->
  dev (slot (state_of (bget_evict a p ticks d b st)) s) <> dev (slot st s) \/
  blockno (slot (state_of (bget_evict a p ticks d b st)) s) <> blockno (slot st s) ->
  victim_of a st = Some s /\ refcnt (slot st s) = 0.
Proof.
  intros Ha Hchg.
  destruct (before_least a) as [c|] eqn:Hc.
  - destruct (scan_inv_candidate _ _ _ _ Ha Hc) as (_ & _ & s0 & Hn & Hr).
    assert (Hv : victim_of a st = Some s0) by (unfold victim_of; by rewrite Hc).
    rewrite (bget_evict_claim _ _ _ _ _ _ _ _ Hc Hn) in Hchg.
    unfold state_of in Hchg; simpl in Hchg.
    match type of Hchg with context [acquiresleep p s0 ?x] =>
      destruct (acquiresleep_frame p s0 x s) as (_ & Hd & Hb & _) end.
    rewrite Hd, Hb in Hchg. clear Hd Hb.
    destruct (decide (s0 = s)) as [->|Hne]; [done|].
    exfalso. rewrite slot_upd_ne in Hchg by done.
    destruct (negb _) in Hchg; [rewrite slot_relink in Hchg|];
      destruct Hchg; congruence.
  - exfalso. rewrite (bget_evict_panic _ _ _ _ _ _ Hc) in Hchg.
    unfold state_of in Hchg; simpl in Hchg. destruct Hchg; congruence.
Qed.

(** C3.  The eviction scan never settles on a referenced buffer, and
    the slow path reassigns the key of no slot but the one the scan
    settled on: when [s] is the victim of the scan, or when [bget_slow]
    changes the device or the block number of [s], then [s] is the
    victim and its [refcnt] in the state scanned is 0. *)
Theorem bget_slow_rekeys_only_free p ticks d b st s :
  victim st = Some s \/
  dev (slot (state_of (bget_slow p ticks d b st)) s) <> dev (slot st s) \/
  blockno (slot (state_of (bget_slow p ticks d b st)) s) <> blockno (slot st s) ->
  victim st = Some s /\ refcnt (slot st s) = 0.
Proof.
  intros [Hv|Hchg]; [split; [done | by apply victim_free]|].
  revert Hchg.
  destruct (find_cached (bufs st) d b (chain st (BUFMAP_HASH d b)))
    as [s0|] eqn:Hf.
  - intros Hchg. exfalso. rewrite (bget_slow_hit _ _ _ _ _ _ Hf) in Hchg.
    unfold state_of in Hchg; simpl in Hchg.
    destruct (acquiresleep_frame p s0 (upd s0 (take_ref ticks) st) s)
      as (_ & Hd & Hb & _).
    rewrite Hd, Hb in Hchg.
    destruct (slot_upd s0 s (take_ref ticks) st) as [E|(-> & _ & E)];
      rewrite E in Hchg; simpl in Hchg; destruct Hchg; congruence.
  - rewrite (bget_slow_miss _ _ _ _ _ Hf). unfold victim.
    forget_scan st a Ha. by apply bget_evict_rekeys.
Qed.

Lemma bget_slow_rekeys_only_free_witness :
  let st := run [Bget 7%nat 5 1 5] (binit 2) in
  refcnt (slot st 1) = 1 /\
  dev (slot (state_of (bget_slow 8%nat 9 1 18 st)) 1) = dev (slot st 1) /\
  victim st = Some 0%nat /\ refcnt (slot st 0) = 0.
Proof.
  cbv zeta. split; [vm_compute; reflexivity|].
  split; [vm_compute; reflexivity|].
  apply (bget_slow_rekeys_only_free 8%nat 9 1 18
           (run [Bget 7%nat 5 1 5] (binit 2)) 0%nat).
  right. left. vm_compute. discriminate.
Defined.

(** The same with the other processors running during the scan: the
    candidate is kept under the lock of its bucket, so whatever the
    others do to the counters of other buckets between the rounds, and
    after the last one, the slot that [bget_evict] takes over has a zero
    reference count in the state in which it is taken over. *)
Lemma scan_inv_interference st st' n a :
  scan_inv st n a -> interference (holding_bucket a) st st' ->
  scan_inv st' n a.
Proof.
  unfold scan_inv, candidate_ok, cursor_next.
  intros H (Hb & _ & _ & Hheld).
  destruct (before_least a) as [c|]; [|done].
  destruct H as (Hh & Hlt & s & Hn & Hr).
  split; [done|]. split; [done|]. exists s.
  unfold chain in *. rewrite Hb. split; [done|].
  rewrite (Hheld (bucket c) s Hh); [done|].
  by apply list_elem_of_lookup_2 in Hn.
Qed.

Lemma scan_with_inv n st a : scan_with n st a -> scan_inv st n a.
Proof.
  induction 1 as [st | n st a st' _ IH Hi]; [done|].
  apply scan_bucket_inv. by apply (scan_inv_interference st).
Qed.

Lemma scan_with_alone st n : scan_with n st (scan_upto st n).
Proof.
  induction n as [|n IH]; [apply scan_with_start|].
  rewrite scan_upto_S. apply (scan_with_round n st _ st IH).
  repeat split; done.
Qed.

Lemma eviction_under_interference st st' a p ticks d b s :
  scan_with NBUCKET st a ->
  interference (holding_bucket a) st st' ->
  victim_of a st' = Some s \/
  dev (slot (state_of (bget_evict a p ticks d b st')) s) <> dev (slot st' s) \/
  blockno (slot (state_of (bget_evict a p ticks d b st')) s)
    <> blockno (slot st' s) ->
  victim_of a st' = Some s /\ refcnt (slot st' s) = 0.
Proof.
  intros Hs Hi H.
  assert (Ha : scan_inv st' NBUCKET a)
    by (apply (scan_inv_interference st); [by apply scan_with_inv | done]).
  destruct H as [Hv|Hchg]; [|by apply (bget_evict_rekeys a p ticks d b)].
  split; [done | by apply (victim_of_free st' NBUCKET a)].
Qed.

(** ** Exhaustion *)

Lemma all_referenced_chain st i :
  all_referenced st = true ->
  forallb (fun s => negb (refcnt (slot st s) =? 0)) (chain st i) = true.
Proof.
  unfold all_referenced, chain. intros H.
  rewrite list_lookup_total_alt.
  destruct (buckets st !! i) as [l|] eqn:Hl; simpl; [|done].
  rewrite forallb_forall in H. apply H.
  apply list_elem_of_In. by apply list_elem_of_lookup_2 in Hl.
Qed.

Lemma scan_upto_all_referenced st n :
  all_referenced st = true ->
  scan_upto st n =
    {| before_least := None; holding_bucket := None;
       scan_trace := flat_map idle_round (seq 0 n) |}.
Proof.
  intros H. induction n as [|n IH]; [done|].
  rewrite scan_upto_S, IH. unfold scan_bucket.
  rewrite scan_chain_all_referenced by (by apply all_referenced_chain).
  rewrite seq_S, flat_map_app. reflexivity.
Qed.

(** C6.  When the key is not cached and no slot of any chain has a zero
    reference count, the lookup stops the kernel with
    [panic("bget: no buffers")]: it does not return a slot, it is not
    suspended, the state is as before, every bucket lock taken by the
    scan was released right after its chain was walked, and
    [bcache.lock] is released before the panic, so that no spin lock is
    held at the end. *)
Theorem bget_slow_no_buffers p ticks d b st :
  find_cached (bufs st) d b (chain st (BUFMAP_HASH d b)) = None ->
  all_referenced st = true ->
  let tr := [Acquire BcacheLock; Walk (BUFMAP_HASH d b)] ++
            flat_map idle_round (seq 0 NBUCKET) ++
            [Release BcacheLock; Panic "bget: no buffers"] in
  bget_slow p ticks d b st = (Abort "bget: no buffers", st, tr) /\
  bget p ticks d b st =
    (Abort "bget: no buffers", st, fast_miss_trace d b ++ tr) /\
  held tr = [] /\ held (fast_miss_trace d b ++ tr) = [].
Proof.
  intros Hf Hall tr.
  assert (Hs : bget_slow p ticks d b st = (Abort "bget: no buffers", st, tr)).
  { rewrite bget_slow_miss by done. unfold scan.
    rewrite scan_upto_all_referenced by done.
    rewrite bget_evict_panic by done.
    subst tr. simpl scan_trace. by rewrite <- app_assoc. }
  split; [done|]. split.
  - unfold bget, bget_fast. rewrite Hf, Hs. done.
  - subst tr. unfold fast_miss_trace.
    generalize (BUFMAP_HASH d b). intros key. split; [reflexivity|].
    unfold held. simpl. rewrite Nat.eqb_refl. reflexivity.
Qed.

Lemma bget_slow_no_buffers_witness :
  let st := run [Bget 7%nat 5 1 5] (binit 1) in
  let tr := [Acquire BcacheLock; Walk (BUFMAP_HASH 1 6)] ++
            flat_map idle_round (seq 0 NBUCKET) ++
            [Release BcacheLock; Panic "bget: no buffers"] in
  bget_slow 8%nat 9 1 6 st = (Abort "bget: no buffers", st, tr) /\
  bget 8%nat 9 1 6 st =
    (Abort "bget: no buffers", st, fast_miss_trace 1 6 ++ tr) /\
  held tr = [] /\ held (fast_miss_trace 1 6 ++ tr) = [].
Proof.
  apply (bget_slow_no_buffers 8%nat 9 1 6 (run [Bget 7%nat 5 1 5] (binit 1)));
    vm_compute; reflexivity.
Defined.

(** ** bwrite *)

(** C9.  [bwrite] stops the kernel with [panic("bwrite")] when the
    caller does not hold the sleep lock of the slot, and the state is
    then as before.  When the caller holds it, the content of the slot
    is written to the block of its key, and the pool (so [valid],
    [refcnt], [dev], [blockno], [timestamp] of every slot) and the
    chains are as before. *)
Theorem bwrite_frame p s st :
  (holdingsleep p (slot st s) = false ->
   bwrite p s st = (Abort "bwrite", st, [Panic "bwrite"])) /\
  (holdingsleep p (slot st s) = true ->
   let st' := state_of (bwrite p s st) in
   result_of (bwrite p s st) = Ret tt /\
   trace_of (bwrite p s st) = [DiskRW s true] /\
   bufs st' = bufs st /\ buckets st' = buckets st /\
   disk st' (dev (slot st s)) (blockno (slot st s)) = data (slot st s)).
Proof.
  unfold bwrite. split; intros H; rewrite H; simpl; [done|].
  repeat split. by rewrite !Z.eqb_refl.
Qed.

Lemma bwrite_frame_witness :
  let st := run [Bread 7%nat 5 1 5] (binit 1) in
  bwrite 8%nat 0 st = (Abort "bwrite", st, [Panic "bwrite"]) /\
  result_of (bwrite 7%nat 0 st) = Ret tt /\
  trace_of (bwrite 7%nat 0 st) = [DiskRW 0 true] /\
  bufs (state_of (bwrite 7%nat 0 st)) = bufs st /\
  buckets (state_of (bwrite 7%nat 0 st)) = buckets st /\
  disk (state_of (bwrite 7%nat 0 st)) (dev (slot st 0)) (blockno (slot st 0))
    = data (slot st 0).
Proof.
  split.
  - apply (proj1 (bwrite_frame 8%nat 0%nat (run [Bread 7%nat 5 1 5] (binit 1)))).
    vm_compute. reflexivity.
  - apply (proj2 (bwrite_frame 7%nat 0%nat (run [Bread 7%nat 5 1 5] (binit 1)))).
    vm_compute. reflexivity.
Defined.

(** ** brelse and bunpin *)

Lemma state_of_brelse p ticks s st :
  holdingsleep p (slot st s) = true ->
  state_of (brelse p ticks s st) = upd s (drop_ref ticks) (releasesleep s st).
Proof. intros H. unfold brelse. by rewrite H. Qed.

Lemma state_of_brelse_panic p ticks s st :
  holdingsleep p (slot st s) = false -> state_of (brelse p ticks s st) = st.
Proof. intros H. unfold brelse. by rewrite H. Qed.

(** C8, as the code has it.  [brelse] by the holder of the sleep lock
    decrements [refcnt] modulo 2^32; when the count reaches zero the
    time stamp becomes the current tick, and otherwise the time stamp is
    as before.  [bunpin] decrements [refcnt] modulo 2^32 and never
    changes the time stamp, whether the count reaches zero or not. *)
Theorem brelse_stamps_bunpin_does_not p ticks s st :
  (s < length (bufs st))%nat ->
  (holdingsleep p (slot st s) = true ->
   let st' := state_of (brelse p ticks s st) in
   refcnt (slot st' s) = wrap (refcnt (slot st s) - 1) /\
   (refcnt (slot st' s) = 0 -> timestamp (slot st' s) = ticks) /\
   (refcnt (slot st' s) <> 0 -> timestamp (slot st' s) = timestamp (slot st s))) /\
  (let st' := state_of (bunpin s st) in
   refcnt (slot st' s) = wrap (refcnt (slot st s) - 1) /\
   timestamp (slot st' s) = timestamp (slot st s)).
Proof.
  intros Hs. split.
  - intros Hh. rewrite state_of_brelse by done. cbv zeta.
    rewrite slot_upd_eq by (unfold releasesleep; by rewrite length_bufs_upd).
    unfold releasesleep. rewrite slot_upd_eq by done.
    unfold drop_ref. simpl.
    destruct (wrap (refcnt (slot st s) - 1) =? 0) eqn:E; simpl.
    + apply Z.eqb_eq in E. repeat split; intros; congruence.
    + apply Z.eqb_neq in E. repeat split; intros; congruence.
  - unfold bunpin, state_of; simpl. by rewrite slot_upd_eq.
Qed.

Lemma brelse_stamps_bunpin_does_not_witness :
  let st := run [Bget 7%nat 5 1 5] (binit 1) in
  (refcnt (slot (state_of (brelse 7%nat 9 0%nat st)) 0) = 0 /\
   timestamp (slot (state_of (brelse 7%nat 9 0%nat st)) 0) = 9) /\
  (refcnt (slot (state_of (bunpin 0%nat st)) 0) = 0 /\
   timestamp (slot (state_of (bunpin 0%nat st)) 0) = 5).
Proof.
  destruct (brelse_stamps_bunpin_does_not 7%nat 9 0%nat
              (run [Bget 7%nat 5 1 5] (binit 1))) as [Hr Hu].
  - vm_compute. lia.
  - split.
    + destruct Hr as (Hc & Hz & _); [vm_compute; reflexivity|].
      split; [|apply Hz]; rewrite Hc; vm_compute; reflexivity.
    + destruct Hu as (Hc & Ht). rewrite Hc, Ht. vm_compute. split; reflexivity.
Defined.

(** C8 as stated fails for [bunpin]: after a lookup at tick 5 the slot
    has count 1; unpinning it brings the count to zero and the time
    stamp is still 5, whatever the current tick. *)
Lemma bunpin_to_zero_keeps_old_timestamp :
  let st := run [Bget 7%nat 5 1 5] (binit 30) in
  refcnt (slot st 29) = 1 /\
  refcnt (slot (exec st (Bunpin 29)) 29) = 0 /\
  timestamp (slot (exec st (Bunpin 29)) 29) = 5 /\
  ~ (forall ticks : Z, timestamp (slot (exec st (Bunpin 29)) 29) = ticks).
Proof.
  vm_compute. repeat split; try reflexivity.
  intros H. specialize (H 9). discriminate.
Qed.

(** ** The choice of the eviction scan *)

(** C2.  The scan compares the time stamp of a free slot with the time
    stamp of the node in front of the candidate ([before_least]), not
    with the candidate's ([before_least->next]).  Thirty slots (xv6's
    NBUF), all in bucket 0 after [binit]: slot 29, the head of the
    chain, is looked up at tick 5 and released; the other slots were
    never used.  All are free, slot 29 has the largest time stamp, and
    the next miss evicts slot 29: the candidate in front of which the
    dummy head stands is compared through the head's time stamp 0,
    which no [uint] is below. *)
Theorem bget_evicts_newer_slot :
  let st := run [Bget 7%nat 5 1 5; Brelse 7%nat 5 29] (binit 30) in
  bget_fast 8%nat 9 1 18 st = None /\
  refcnt (slot st 28) = 0 /\ refcnt (slot st 29) = 0 /\
  timestamp (slot st 28) = 0 /\ timestamp (slot st 29) = 5 /\
  victim st = Some 29%nat /\
  result_of (bget 8%nat 9 1 18 st) = Ret 29%nat /\
  dev (slot (state_of (bget 8%nat 9 1 18 st)) 29) = 1 /\
  blockno (slot (state_of (bget 8%nat 9 1 18 st)) 29) = 18.
Proof. vm_compute. repeat split; reflexivity. Qed.

(** ** Slots a call leaves alone *)

Lemma find_cached_some bs d b c s :
  find_cached bs d b c = Some s -> s ∈ c /\ has_key d b (bs !!! s) = true.
Proof.
  unfold find_cached. intros H. apply find_some in H as [Hin Hk].
  split; [by apply list_elem_of_In | done].
Qed.

Lemma find_cached_none bs d b c s :
  find_cached bs d b c = None -> s ∈ c -> has_key d b (bs !!! s) = false.
Proof.
  unfold find_cached. intros H Hin.
  apply (find_none _ _ H). by apply list_elem_of_In.
Qed.

(** The two halves of [bget] run back to back end in the state the slow
    half alone ends in. *)
Lemma state_of_bget p ticks d b st :
  state_of (bget p ticks d b st) = state_of (bget_slow p ticks d b st).
Proof.
  unfold bget, bget_fast, bget_slow.
  destruct (find_cached (bufs st) d b (chain st (BUFMAP_HASH d b))) as [s|].
  - by destruct (acquiresleep p s (upd s (take_ref ticks) st)).
  - by destruct (bget_evict (scan st) p ticks d b st) as [[r st'] tr].
Qed.

Lemma result_of_bget p ticks d b st :
  result_of (bget p ticks d b st) = result_of (bget_slow p ticks d b st).
Proof.
  unfold bget, bget_fast, bget_slow.
  destruct (find_cached (bufs st) d b (chain st (BUFMAP_HASH d b))) as [s|].
  - by destruct (acquiresleep p s (upd s (take_ref ticks) st)).
  - by destruct (bget_evict (scan st) p ticks d b st) as [[r st'] tr].
Qed.

Lemma length_bufs_acquiresleep p s st :
  length (bufs (snd (acquiresleep p s st))) = length (bufs st).
Proof. by destruct (acquiresleep_frame p s st 0%nat) as (_&_&_&_&_&_&_&_&H). Qed.

Lemma slot_acquiresleep_ne p s st s' :
  s <> s' -> slot (snd (acquiresleep p s st)) s' = slot st s'.
Proof.
  intros Hne.
  destruct (acquiresleep_cases p s st) as [[_ E]|[_ E]]; rewrite E; simpl;
    [by apply slot_upd_ne | done].
Qed.

Lemma bget_evict_other a p ticks d b st s :
  scan_inv st NBUCKET a ->
  refcnt (slot st s) <> 0 ->
  slot (state_of (bget_evict a p ticks d b st)) s = slot st s /\
  length (bufs (state_of (bget_evict a p ticks d b st))) = length (bufs st).
Proof.
  intros Ha Hr.
  destruct (before_least a) as [c|] eqn:Hc.
  - destruct (scan_inv_candidate _ _ _ _ Ha Hc) as (_ & _ & s0 & Hn & Hr0).
    rewrite (bget_evict_claim _ _ _ _ _ _ _ _ Hc Hn).
    unfold state_of; simpl fst; simpl snd.
    assert (s0 <> s) by congruence.
    rewrite slot_acquiresleep_ne, slot_upd_ne, length_bufs_acquiresleep,
      length_bufs_upd by done.
    by destruct (negb _).
  - by rewrite (bget_evict_panic _ _ _ _ _ _ Hc).
Qed.

(** A lookup of another key leaves a referenced slot as it is. *)
Lemma bget_slow_other p ticks d b st s :
  has_key d b (slot st s) = false ->
  refcnt (slot st s) <> 0 ->
  slot (state_of (bget_slow p ticks d b st)) s = slot st s /\
  length (bufs (state_of (bget_slow p ticks d b st))) = length (bufs st).
Proof.
  intros Hk Hr.
  destruct (find_cached (bufs st) d b (chain st (BUFMAP_HASH d b)))
    as [s0|] eqn:Hf.
  - rewrite (bget_slow_hit _ _ _ _ _ _ Hf). unfold state_of; simpl fst; simpl snd.
    apply find_cached_some in Hf as [_ Hk0].
    assert (s0 <> s) by (intros ->; unfold slot in Hk; congruence).
    by rewrite slot_acquiresleep_ne, slot_upd_ne, length_bufs_acquiresleep,
      length_bufs_upd.
  - rewrite (bget_slow_miss _ _ _ _ _ Hf).
    forget_scan st a Ha. by apply bget_evict_other.
Qed.

(** The tail of [bread] changes [valid] and the content of its slot. *)
Lemma bread_fill_frame s st s' :
  let st' := fst (bread_fill s st) in
  dev (slot st' s') = dev (slot st s') /\
  blockno (slot st' s') = blockno (slot st s') /\
  refcnt (slot st' s') = refcnt (slot st s') /\
  timestamp (slot st' s') = timestamp (slot st s') /\
  lock (slot st' s') = lock (slot st s') /\
  buckets st' = buckets st /\
  length (bufs st') = length (bufs st).
Proof.
  unfold bread_fill. destruct (valid (slot st s) =? 0); cbn [fst]; [|done].
  unfold virtio_disk_rw. cbv zeta. rewrite !length_bufs_upd.
  match goal with |- context [slot (upd s ?f (upd s ?g st)) s'] =>
    destruct (slot_upd s s' f (upd s g st)) as [E|(-> & _ & E)]; rewrite E;
    clear E;
    [destruct (slot_upd s s' g st) as [E|(-> & _ & E)]
    |destruct (slot_upd s s g st) as [E|(_ & _ & E)]]; rewrite E
  end; done.
Qed.

Lemma state_of_bread p ticks d b st :
  state_of (bread p ticks d b st) =
    match result_of (bget p ticks d b st) with
    | Ret s => fst (bread_fill s (state_of (bget p ticks d b st)))
    | _ => state_of (bget p ticks d b st)
    end.
Proof.
  unfold bread.
  destruct (bget p ticks d b st) as [[r st1] tr].
  unfold result_of, state_of; simpl.
  destruct r as [s| |]; [|done|done].
  by destruct (bread_fill s st1).
Qed.

Lemma bread_resume_eq p s st :
  bread_resume p s st =
    match fst (acquiresleep p s st) with
    | Ret s' => (Ret s', fst (bread_fill s' (snd (acquiresleep p s st))),
                 snd (bread_fill s' (snd (acquiresleep p s st))))
    | r => (r, snd (acquiresleep p s st), [])
    end.
Proof.
  unfold bread_resume. destruct (acquiresleep p s st) as [r st1].
  cbn [fst snd]. destruct r as [s'| |]; [|done|done].
  by destruct (bread_fill s' st1).
Qed.

(** The rest of a suspended [bread] changes the sleep lock, [valid] and
    the content of its slot. *)
Lemma bread_resume_frame p s st s' :
  let st' := state_of (bread_resume p s st) in
  dev (slot st' s') = dev (slot st s') /\
  blockno (slot st' s') = blockno (slot st s') /\
  refcnt (slot st' s') = refcnt (slot st s') /\
  timestamp (slot st' s') = timestamp (slot st s') /\
  buckets st' = buckets st /\
  length (bufs st') = length (bufs st).
Proof.
  cbv zeta. rewrite bread_resume_eq.
  destruct (acquiresleep_frame p s st s')
    as (_ & Hd & Hb & Hc & Ht & _ & Hbk & _ & Hl).
  destruct (fst (acquiresleep p s st)) as [s1| |]; unfold state_of;
    cbn [fst snd]; [|done|done].
  destruct (bread_fill_frame s1 (snd (acquiresleep p s st)) s')
    as (Hd' & Hb' & Hc' & Ht' & _ & Hbk' & Hl').
  rewrite Hd', Hb', Hc', Ht', Hbk', Hl'. done.
Qed.

Lemma pinned_at_slot d0 b0 r s st st' :
  slot st' s = slot st s -> length (bufs st') = length (bufs st) ->
  pinned_at d0 b0 r s st -> pinned_at d0 b0 r s st'.
Proof. unfold pinned_at. intros -> ->. done. Qed.

Lemma avoids_key d0 b0 r s st d b :
  pinned_at d0 b0 r s st ->
  negb ((d0 =? d) && (b0 =? b)) = true ->
  has_key d b (slot st s) = false.
Proof.
  intros (_ & Hd & Hb & _) H. unfold has_key. rewrite Hd, Hb.
  by apply negb_true_iff.
Qed.

Lemma exec_avoids d0 b0 r s st c :
  r <> 0 -> pinned_at d0 b0 r s st -> avoids d0 b0 s c = true ->
  pinned_at d0 b0 r s (exec st c).
Proof.
  intros Hr Hp Ha.
  assert (Hr' : refcnt (slot st s) <> 0)
    by (destruct Hp as (_ & _ & _ & ->); done).
  destruct c as [p t d b|p t d b|p t d b|p s'|p s'|p s'|p t s'|s'|s'];
    simpl in Ha; unfold exec.
  - rewrite state_of_bget.
    destruct (bget_slow_other p t d b st s) as [E L];
      eauto using avoids_key, pinned_at_slot.
  - destruct (bget_slow_other p t d b st s) as [E L];
      eauto using avoids_key, pinned_at_slot.
  - rewrite state_of_bread, result_of_bget, state_of_bget.
    destruct (bget_slow_other p t d b st s) as [E L];
      eauto using avoids_key.
    assert (Hp1 : pinned_at d0 b0 r s (state_of (bget_slow p t d b st)))
      by eauto using pinned_at_slot.
    destruct (result_of (bget_slow p t d b st)) as [s1| |]; [|done|done].
    destruct (bread_fill_frame s1 (state_of (bget_slow p t d b st)) s)
      as (Hd & Hb & Hc & _ & _ & _ & Hl).
    unfold pinned_at in *. rewrite Hd, Hb, Hc, Hl. done.
  - destruct (acquiresleep_frame p s' st s)
      as (_ & Hd & Hb & Hc & _ & _ & _ & _ & Hl).
    unfold pinned_at in *. rewrite Hd, Hb, Hc, Hl. done.
  - destruct (bread_resume_frame p s' st s) as (Hd & Hb & Hc & _ & _ & Hl).
    unfold pinned_at in *. rewrite Hd, Hb, Hc, Hl. done.
  - unfold bwrite. by destruct (negb (holdingsleep p (slot st s'))).
  - apply negb_true_iff, Nat.eqb_neq in Ha.
    destruct (holdingsleep p (slot st s')) eqn:Hh.
    + rewrite state_of_brelse by done. unfold releasesleep.
      apply (pinned_at_slot _ _ _ _ st); [|by rewrite !length_bufs_upd|done].
      by rewrite !slot_upd_ne.
    + by rewrite state_of_brelse_panic.
  - apply negb_true_iff, Nat.eqb_neq in Ha. unfold bpin, state_of; simpl.
    apply (pinned_at_slot _ _ _ _ st); [|by rewrite length_bufs_upd|done].
    by rewrite slot_upd_ne.
  - apply negb_true_iff, Nat.eqb_neq in Ha. unfold bunpin, state_of; simpl.
    apply (pinned_at_slot _ _ _ _ st); [|by rewrite length_bufs_upd|done].
    by rewrite slot_upd_ne.
Qed.

Lemma run_avoids d0 b0 r s cs : forall st,
  r <> 0 -> pinned_at d0 b0 r s st ->
  forallb (avoids d0 b0 s) cs = true ->
  pinned_at d0 b0 r s (run cs st).
Proof.
  induction cs as [|c cs IH]; intros st Hr Hp Ha; [done|].
  simpl in Ha. apply andb_true_iff in Ha as [Hc Hcs].
  unfold run; simpl. apply IH; [done| |done].
  by apply exec_avoids.
Qed.

Lemma pinned_not_victim d0 b0 r s st :
  r <> 0 -> pinned_at d0 b0 r s st -> victim st <> Some s.
Proof.
  intros Hr (_ & _ & _ & Hc) Hv. apply victim_free in Hv. congruence.
Qed.

(** ** bunpin on a count of zero *)

(** C10, as the code has it.  [bunpin] has no guard: on a slot whose
    count is 0 it returns normally and leaves the count at 2^32 - 1.
    The slot then counts as referenced: the eviction scan does not
    choose it, and it stays so, with the same count, through every
    sequence of lookups of other keys and of releases, pins and unpins
    of other slots.  It does not stay so for ever: after any such
    sequence the next increment of the count, by [bpin] of the slot or
    by a lookup that finds its key in the slot, wraps it back to 0. *)
Theorem bunpin_wraps_to_uint_max s st cs :
  (s < length (bufs st))%nat ->
  refcnt (slot st s) = 0 ->
  forallb (avoids (dev (slot st s)) (blockno (slot st s)) s) cs = true ->
  let st' := state_of (bunpin s st) in
  result_of (bunpin s st) = Ret tt /\
  refcnt (slot st' s) = 2 ^ 32 - 1 /\
  victim st' <> Some s /\
  refcnt (slot (run cs st') s) = 2 ^ 32 - 1 /\
  victim (run cs st') <> Some s /\
  refcnt (slot (state_of (bpin s (run cs st'))) s) = 0 /\
  (forall p ticks d b,
     find_cached (bufs (run cs st')) d b
       (chain (run cs st') (BUFMAP_HASH d b)) = Some s ->
     refcnt (slot (state_of (bget p ticks d b (run cs st'))) s) = 0).
Proof.
  intros Hs Hz Hcs st'.
  assert (Hp : pinned_at (dev (slot st s)) (blockno (slot st s))
                 (2 ^ 32 - 1) s st').
  { subst st'.
    change (state_of (bunpin s st))
      with (upd s (fun y => set_refcnt (wrap (refcnt y - 1)) y) st).
    unfold pinned_at.
    rewrite length_bufs_upd, slot_upd_eq by done. simpl.
    rewrite Hz. repeat split; done. }
  assert (Hne : 2 ^ 32 - 1 <> 0) by done.
  pose proof (run_avoids _ _ _ _ cs st' Hne Hp Hcs) as Hp'.
  pose proof Hp' as (Hs' & _ & _ & Hc').
  split; [done|]. split; [apply Hp|]. split; [by eapply pinned_not_victim|].
  split; [apply Hp'|]. split; [by eapply pinned_not_victim|].
  revert Hs' Hc'. generalize (run cs st'). intros st2 Hs' Hc'. split.
  - unfold bpin, state_of. cbn [fst snd].
    rewrite slot_upd_eq by done. cbn [refcnt set_refcnt]. by rewrite Hc'.
  - intros p ticks d b Hf.
    rewrite state_of_bget, (bget_slow_hit _ _ _ _ _ _ Hf).
    unfold state_of. cbn [fst snd].
    destruct (acquiresleep_frame p s (upd s (take_ref ticks) st2) s)
      as (_ & _ & _ & -> & _).
    rewrite slot_upd_eq by done. cbn [refcnt take_ref set_timestamp set_refcnt].
    by rewrite Hc'.
Qed.

Lemma bunpin_wraps_to_uint_max_witness :
  let cs := [Bget 7%nat 5 1 5; Brelse 7%nat 6 1; Bread 8%nat 9 1 18;
             Bpin 1; Brelse 8%nat 10 1; Bget 7%nat 11 2 3] in
  let st' := state_of (bunpin 0%nat (binit 2)) in
  result_of (bunpin 0%nat (binit 2)) = Ret tt /\
  refcnt (slot st' 0) = 2 ^ 32 - 1 /\
  victim st' <> Some 0%nat /\
  refcnt (slot (run cs st') 0) = 2 ^ 32 - 1 /\
  victim (run cs st') <> Some 0%nat /\
  refcnt (slot (state_of (bpin 0%nat (run cs st'))) 0) = 0 /\
  refcnt (slot (state_of (bget 9%nat 12 0 0 (run cs st'))) 0) = 0.
Proof.
  cbv zeta.
  destruct (bunpin_wraps_to_uint_max 0%nat (binit 2)
              [Bget 7%nat 5 1 5; Brelse 7%nat 6 1; Bread 8%nat 9 1 18;
               Bpin 1; Brelse 8%nat 10 1; Bget 7%nat 11 2 3])
    as (H1 & H2 & H3 & H4 & H5 & H6 & H7).
  - vm_compute. lia.
  - vm_compute. reflexivity.
  - vm_compute. reflexivity.
  - split; [exact H1|]. split; [exact H2|]. split; [exact H3|].
    split; [exact H4|]. split; [exact H5|]. split; [exact H6|].
    apply H7. vm_compute. reflexivity.
Defined.

(** C10 as stated fails on "permanently": the count left at 2^32 - 1 is
    a count like any other.  Thirty slots; slot 29 is read and released
    (count 0) and then unpinned (count 2^32 - 1), and the scan passes it
    over.  One [bpin] of the slot, or one [bread] of its key, brings the
    count back to 0: the slot is the victim of the scan again, and the
    next lookup of another key gives it that key -- after the [bread],
    while the reader holds its sleep lock. *)
Lemma underflow_is_not_permanent :
  let st := run [Bread 7%nat 5 1 5; Brelse 7%nat 6 29] (binit 30) in
  let st1 := state_of (bunpin 29 st) in
  let st2 := state_of (bpin 29 st1) in
  let st3 := state_of (bread 8%nat 7 1 5 st1) in
  refcnt (slot st 29) = 0 /\
  refcnt (slot st1 29) = 2 ^ 32 - 1 /\ victim st1 = Some 27%nat /\
  refcnt (slot st2 29) = 0 /\ victim st2 = Some 29%nat /\
  result_of (bread 8%nat 7 1 5 st1) = Ret 29%nat /\
  refcnt (slot st3 29) = 0 /\ victim st3 = Some 29%nat /\
  lock (slot st3 29) = Some 8%nat /\
  dev (slot (state_of (bget 9%nat 8 1 18 st3)) 29) = 1 /\
  blockno (slot (state_of (bget 9%nat 8 1 18 st3)) 29) = 18.
Proof. vm_compute. repeat split; reflexivity. Qed.

(** ** The slot an eviction hands out *)

Lemma chain_acquiresleep p s st i :
  chain (snd (acquiresleep p s st)) i = chain st i.
Proof.
  unfold chain.
  by destruct (acquiresleep_frame p s st 0%nat) as (_&_&_&_&_&_&->&_).
Qed.

Lemma chain_relink_target c s key st :
  (key < length (buckets st))%nat -> bucket c <> key ->
  chain (relink c s key st) key = s :: chain st key.
Proof.
  intros Hk Hne. unfold relink.
  rewrite chain_set_chain_eq by (by rewrite length_buckets_set_chain).
  by rewrite chain_set_chain_ne.
Qed.

Lemma chain_relink_source c s key st :
  (bucket c < length (buckets st))%nat -> bucket c <> key ->
  chain (relink c s key st) (bucket c) = delete (hops c) (chain st (bucket c)).
Proof.
  intros Hk Hne. unfold relink.
  rewrite chain_set_chain_ne by done. by rewrite chain_set_chain_eq.
Qed.

Lemma chain_relink_other c s key st i :
  i <> key -> i <> bucket c -> chain (relink c s key st) i = chain st i.
Proof. intros H1 H2. unfold relink. by rewrite !chain_set_chain_ne. Qed.

Lemma same_bucket_some i key : same_bucket (Some i) key = Nat.eqb i key.
Proof. reflexivity. Qed.

Lemma bget_evict_spec a p ticks d b st c :
  scan_inv st NBUCKET a ->
  in_pool st = true ->
  before_least a = Some c ->
  exists s,
    victim_of a st = Some s /\
    let r := result_of (bget_evict a p ticks d b st) in
    let st' := state_of (bget_evict a p ticks d b st) in
    let key := BUFMAP_HASH d b in
    (r = Ret s /\ lock (slot st s) = None /\ lock (slot st' s) = Some p \/
     r = Sleep s /\ lock (slot st s) <> None) /\
    dev (slot st' s) = d /\ blockno (slot st' s) = b /\
    valid (slot st' s) = 0 /\ refcnt (slot st' s) = 1 /\
    timestamp (slot st' s) = ticks /\
    s ∈ chain st' key /\
    (bucket c = key -> buckets st' = buckets st) /\
    (bucket c <> key ->
     chain st' key = s :: chain st key /\
     chain st' (bucket c) = delete (hops c) (chain st (bucket c)) /\
     forall i, i <> key -> i <> bucket c -> chain st' i = chain st i) /\
    (forall s', s' <> s -> slot st' s' = slot st s') /\
    length (bufs st') = length (bufs st).
Proof.
  intros Ha Hp Hc.
  destruct (scan_inv_candidate _ _ _ _ Ha Hc) as (Hh & Hlt & s & Hn & Hr).
  exists s. split; [unfold victim_of; by rewrite Hc|].
  pose proof (cursor_next_in_pool _ _ _ Hp Hn) as Hs.
  pose proof (in_pool_length _ Hp) as Hlen.
  pose proof (BUFMAP_HASH_lt d b) as Hkey.
  rewrite (bget_evict_claim _ _ _ _ _ _ _ _ Hc Hn).
  rewrite Hh, same_bucket_some. unfold result_of, state_of. cbn [fst snd].
  set (key := BUFMAP_HASH d b) in *.
  set (st1 := if negb (Nat.eqb (bucket c) key) then relink c s key st else st).
  assert (Hslot1 : forall s', slot st1 s' = slot st s')
    by (intros s'; subst st1; by destruct (negb _)).
  assert (Hlen1 : length (bufs st1) = length (bufs st))
    by (subst st1; by destruct (negb _)).
  set (st2 := upd s (claim ticks d b) st1).
  assert (Hslot2 : slot st2 s = claim ticks d b (slot st s)).
  { subst st2. rewrite slot_upd_eq by lia. by rewrite Hslot1. }
  destruct (acquiresleep_frame p s st2 s)
    as (Hv & Hd & Hb & Hrc & Hts & _ & Hbk & _ & Hl).
  rewrite Hslot2 in Hv, Hd, Hb, Hrc, Hts. simpl in Hv, Hd, Hb, Hrc, Hts.
  assert (Hch : forall i, chain (snd (acquiresleep p s st2)) i = chain st1 i)
    by (intros i; by rewrite chain_acquiresleep).
  repeat split; try done.
  - destruct (acquiresleep_cases p s st2) as [[Hfree E]|[Hbusy E]];
      rewrite E; simpl.
    + left. rewrite Hslot2 in Hfree. simpl in Hfree. repeat split; [done|].
      rewrite slot_upd_eq by (subst st2; rewrite length_bufs_upd; lia).
      done.
    + right. rewrite Hslot2 in Hbusy. simpl in Hbusy. done.
  - rewrite Hch. subst st1.
    destruct (Nat.eqb (bucket c) key) eqn:E; simpl.
    + apply Nat.eqb_eq in E. rewrite <- E.
      by apply list_elem_of_lookup_2 in Hn.
    + apply Nat.eqb_neq in E. rewrite chain_relink_target by (done || lia).
      by left.
  - intros E. rewrite Hbk. subst st2 st1. simpl.
    apply Nat.eqb_eq in E. by rewrite E.
  - rewrite Hch. subst st1. apply Nat.eqb_neq in H. rewrite H. simpl.
    apply chain_relink_target; [lia | by apply Nat.eqb_neq].
  - rewrite Hch. subst st1. apply Nat.eqb_neq in H. rewrite H. simpl.
    apply chain_relink_source; [lia | by apply Nat.eqb_neq].
  - intros i H1 H2. rewrite Hch. subst st1.
    apply Nat.eqb_neq in H. rewrite H. simpl. by apply chain_relink_other.
  - intros s' Hne. rewrite slot_acquiresleep_ne by done.
    subst st2. rewrite slot_upd_ne by done. apply Hslot1.
  - rewrite Hl. subst st2. by rewrite length_bufs_upd.
Qed.

(** C7.  When the slow path evicts (the key is not cached and the scan
    ends with a candidate), the slot it hands out is the victim of the
    scan.  Its [dev] and [blockno] are the requested key, [valid] is 0,
    [refcnt] is 1, [timestamp] is the current tick.  It is in the chain
    of the bucket the key hashes to: when that is the bucket it was
    found in the chains are as before, and otherwise it has been
    unlinked from the old chain and linked at the head of the new one,
    the other chains being as before.  The call returns the slot with
    its sleep lock held by the caller when the lock was free; when
    somebody holds the lock the caller is suspended on it, and does not
    return without it.  No other slot changes. *)
Theorem bget_slow_evicts p ticks d b st c :
  in_pool st = true ->
  find_cached (bufs st) d b (chain st (BUFMAP_HASH d b)) = None ->
  before_least (scan st) = Some c ->
  exists s,
    victim st = Some s /\
    let r := result_of (bget_slow p ticks d b st) in
    let st' := state_of (bget_slow p ticks d b st) in
    let key := BUFMAP_HASH d b in
    (r = Ret s /\ lock (slot st s) = None /\ lock (slot st' s) = Some p \/
     r = Sleep s /\ lock (slot st s) <> None) /\
    dev (slot st' s) = d /\ blockno (slot st' s) = b /\
    valid (slot st' s) = 0 /\ refcnt (slot st' s) = 1 /\
    timestamp (slot st' s) = ticks /\
    s ∈ chain st' key /\
    (bucket c = key -> buckets st' = buckets st) /\
    (bucket c <> key ->
     chain st' key = s :: chain st key /\
     chain st' (bucket c) = delete (hops c) (chain st (bucket c)) /\
     forall i, i <> key -> i <> bucket c -> chain st' i = chain st i) /\
    (forall s', s' <> s -> slot st' s' = slot st s') /\
    length (bufs st') = length (bufs st).
Proof.
  intros Hp Hf. rewrite (bget_slow_miss _ _ _ _ _ Hf). unfold victim.
  forget_scan st a Ha. intros Hc. by apply bget_evict_spec.
Qed.

Lemma bget_slow_evicts_witness :
  let st := run [Bget 7%nat 5 1 5; Brelse 7%nat 5 1] (binit 2) in
  let st' := state_of (bget_slow 8%nat 9 1 6 st) in
  exists s,
    victim st = Some s /\
    result_of (bget_slow 8%nat 9 1 6 st) = Ret s /\
    lock (slot st' s) = Some 8%nat /\
    dev (slot st' s) = 1 /\ blockno (slot st' s) = 6 /\
    valid (slot st' s) = 0 /\ refcnt (slot st' s) = 1 /\
    timestamp (slot st' s) = 9 /\
    chain st' (BUFMAP_HASH 1 6) = s :: chain st (BUFMAP_HASH 1 6).
Proof.
  destruct (bget_slow_evicts 8%nat 9 1 6
              (run [Bget 7%nat 5 1 5; Brelse 7%nat 5 1] (binit 2))
              {| bucket := 0; hops := 0 |})
    as (s & Hv & Hr & Hd & Hb & Hva & Hrc & Hts & _ & _ & Hmv & _);
    [vm_compute; reflexivity ..|].
  exists s. destruct Hmv as (Hk & _); [vm_compute; lia|].
  destruct Hr as [(Hr & _ & Hl)|(_ & Hl)].
  - repeat split; assumption.
  - exfalso. apply Hl.
    assert (E : victim (run [Bget 7%nat 5 1 5; Brelse 7%nat 5 1] (binit 2))
                = Some 1%nat) by (vm_compute; reflexivity).
    rewrite E in Hv. injection Hv as <-. vm_compute. reflexivity.
Defined.

(** ** The re-check of the slow path *)

Lemma hit_frame p ticks s st s' :
  let st' := snd (acquiresleep p s (upd s (take_ref ticks) st)) in
  dev (slot st' s') = dev (slot st s') /\
  blockno (slot st' s') = blockno (slot st s') /\
  valid (slot st' s') = valid (slot st s').
Proof.
  cbv zeta.
  destruct (acquiresleep_frame p s (upd s (take_ref ticks) st) s')
    as (Hv & Hd & Hb & _).
  rewrite Hv, Hd, Hb.
  destruct (slot_upd s s' (take_ref ticks) st) as [E|(-> & _ & E)];
    rewrite E; done.
Qed.

(** C4, as the code has it.  The slow path takes [bcache.lock] and
    walks the chain of the target bucket holding that lock alone.  When
    the walk finds the key, the lock of the target bucket -- and of no
    other bucket -- is taken around the update: the count of the slot
    goes up by one modulo 2^32, its time stamp becomes the current
    tick, both locks are released, the sleep lock of the slot is
    acquired and the slot is returned (the caller being suspended on it
    while somebody holds it).  Nothing is evicted: the chains, and the
    key and [valid] of every slot, are as before, and no other slot
    changes.  When the walk does not find the key no bucket lock is
    taken for it: the trace goes on with the eviction scan. *)
Theorem bget_slow_recheck p ticks d b st :
  in_pool st = true ->
  let key := BUFMAP_HASH d b in
  let r := result_of (bget_slow p ticks d b st) in
  let st' := state_of (bget_slow p ticks d b st) in
  let tr := trace_of (bget_slow p ticks d b st) in
  (forall s,
     find_cached (bufs st) d b (chain st key) = Some s ->
     tr = [Acquire BcacheLock; Walk key;
           Acquire (BucketLock key); Release (BucketLock key);
           Release BcacheLock; AcquireSleep s] /\
     held tr = [] /\
     refcnt (slot st' s) = wrap (refcnt (slot st s) + 1) /\
     timestamp (slot st' s) = ticks /\
     (r = Ret s /\ lock (slot st s) = None /\ lock (slot st' s) = Some p \/
      r = Sleep s /\ lock (slot st s) <> None) /\
     buckets st' = buckets st /\
     (forall s', dev (slot st' s') = dev (slot st s') /\
                 blockno (slot st' s') = blockno (slot st s') /\
                 valid (slot st' s') = valid (slot st s')) /\
     (forall s', s' <> s -> slot st' s' = slot st s')) /\
  (find_cached (bufs st) d b (chain st key) = None ->
   exists tr',
     tr = [Acquire BcacheLock; Walk key] ++ scan_trace (scan st) ++ tr').
Proof.
  intros Hp key r st' tr. split.
  - intros s Hf. subst r st' tr.
    rewrite (bget_slow_hit _ _ _ _ _ _ Hf).
    unfold result_of, state_of, trace_of. cbn [fst snd]. fold key.
    destruct (find_cached_some _ _ _ _ _ Hf) as [Hin _].
    pose proof (in_pool_chain _ _ _ Hp Hin) as Hs.
    set (st1 := upd s (take_ref ticks) st).
    assert (Hslot1 : slot st1 s = take_ref ticks (slot st s))
      by (subst st1; by rewrite slot_upd_eq).
    destruct (acquiresleep_frame p s st1 s)
      as (_ & _ & _ & Hrc & Hts & _ & Hbk & _ & _).
    rewrite Hslot1 in Hrc, Hts. simpl in Hrc, Hts.
    split; [done|]. split.
    { unfold held. simpl. by rewrite Nat.eqb_refl. }
    split; [done|]. split; [done|]. split.
    { destruct (acquiresleep_cases p s st1) as [[Hfree E]|[Hbusy E]];
        rewrite E; simpl.
      - left. rewrite Hslot1 in Hfree. simpl in Hfree. repeat split; [done|].
        rewrite slot_upd_eq by (subst st1; by rewrite length_bufs_upd).
        done.
      - right. rewrite Hslot1 in Hbusy. simpl in Hbusy. done. }
    split; [done|]. split.
    { intros s'. subst st1. apply hit_frame. }
    intros s' Hne. rewrite slot_acquiresleep_ne by done.
    subst st1. by rewrite slot_upd_ne.
  - intros Hf. subst tr. rewrite (bget_slow_miss _ _ _ _ _ Hf). fold key.
    generalize (scan st). intros a. unfold bget_evict, trace_of. fold key.
    destruct (before_least a) as [c|]; cbn [snd].
    + destruct (cursor_next st c) as [s|]; cbn [snd].
      * match goal with |- context [acquiresleep p s ?x] =>
          destruct (acquiresleep p s x) end.
        cbn [snd]. rewrite <- app_assoc. eauto.
      * exists []. by rewrite app_nil_r.
    + rewrite <- app_assoc. eauto.
Qed.

Lemma bget_slow_recheck_witness :
  let st := run [Bget 7%nat 5 1 5] (binit 2) in
  (trace_of (bget_slow 8%nat 9 1 5 st) =
     [Acquire BcacheLock; Walk 0;
      Acquire (BucketLock 0); Release (BucketLock 0);
      Release BcacheLock; AcquireSleep 1] /\
   refcnt (slot (state_of (bget_slow 8%nat 9 1 5 st)) 1) = 2 /\
   timestamp (slot (state_of (bget_slow 8%nat 9 1 5 st)) 1) = 9) /\
  exists tr',
    trace_of (bget_slow 8%nat 9 1 6 st) =
      [Acquire BcacheLock; Walk (BUFMAP_HASH 1 6)] ++ scan_trace (scan st) ++ tr'.
Proof.
  split.
  - destruct (bget_slow_recheck 8%nat 9 1 5 (run [Bget 7%nat 5 1 5] (binit 2)))
      as [Hhit _]; [vm_compute; reflexivity|].
    destruct (Hhit 1%nat) as (Ht & _ & Hr & Hts & _); [vm_compute; reflexivity|].
    split; [exact Ht|]. split; [rewrite Hr; vm_compute; reflexivity | exact Hts].
  - destruct (bget_slow_recheck 8%nat 9 1 6 (run [Bget 7%nat 5 1 5] (binit 2)))
      as [_ Hmiss]; [vm_compute; reflexivity|].
    apply Hmiss. vm_compute. reflexivity.
Defined.

(** C4 as stated fails: the walk of the re-check happens without the
    lock of the target bucket.  Slot 29 holds (1, 5).  A second lookup
    of (1, 5) finds it in the re-check after walking bucket 0 under
    [bcache.lock] alone; a lookup of (1, 6), which misses, walks bucket
    1 and then starts the scan at bucket 0 without ever having taken
    the lock of bucket 1 for the check. *)
Lemma recheck_walks_without_bucket_lock :
  let st := run [Bget 7%nat 5 1 5] (binit 30) in
  find_cached (bufs st) 1 5 (chain st (BUFMAP_HASH 1 5)) = Some 29%nat /\
  trace_of (bget_slow 8%nat 9 1 5 st) =
    [Acquire BcacheLock; Walk 0;
     Acquire (BucketLock 0); Release (BucketLock 0);
     Release BcacheLock; AcquireSleep 29] /\
  walks_locked [] (trace_of (bget_slow 8%nat 9 1 5 st)) = false /\
  find_cached (bufs st) 1 6 (chain st (BUFMAP_HASH 1 6)) = None /\
  take 3 (trace_of (bget_slow 8%nat 9 1 6 st)) =
    [Acquire BcacheLock; Walk 1; Acquire (BucketLock 0)] /\
  walks_locked [] (trace_of (bget_slow 8%nat 9 1 6 st)) = false.
Proof. vm_compute. repeat split; reflexivity. Qed.

(** ** The locks of the eviction scan *)

Lemma scan_bucket_cases st a n :
  scan_bucket st a n =
    {| before_least := before_least a; holding_bucket := holding_bucket a;
       scan_trace := scan_trace a ++ idle_round n |} \/
  exists j,
    scan_bucket st a n =
      {| before_least := Some {| bucket := n; hops := j |};
         holding_bucket := Some n;
         scan_trace := scan_trace a ++ [Acquire (BucketLock n); Walk n] ++
                       release_holding (holding_bucket a) |}.
Proof.
  unfold scan_bucket.
  destruct (scan_chain_flag st n (chain st n) 0 (before_least a) false)
    as [E | [j E]]; rewrite E; [left | right; exists j]; reflexivity.
Qed.

Lemma holding_below st n a h :
  scan_inv st n a -> holding_bucket a = Some h -> (h < n)%nat.
Proof.
  unfold scan_inv. intros H Hh.
  destruct (before_least a) as [c|]; [|congruence].
  destruct H as (E & Hlt & _). congruence.
Qed.

(** After a round that started with the locks of [h] and [bcache.lock]
    held, the locks held are those of the new [holding_bucket] and
    [bcache.lock]. *)
Lemma held_scan_bucket st n a :
  scan_inv st n a ->
  fold_left held_step (scan_trace a) [BcacheLock]
    = holding_locks (holding_bucket a) ++ [BcacheLock] ->
  fold_left held_step (scan_trace (scan_bucket st a n)) [BcacheLock]
    = holding_locks (holding_bucket (scan_bucket st a n)) ++ [BcacheLock].
Proof.
  intros Ha IH.
  destruct (scan_bucket_cases st a n) as [E | [j E]]; rewrite E; simpl;
    rewrite fold_left_app, IH.
  - destruct (holding_bucket a) as [h|] eqn:Hh; simpl.
    + rewrite Nat.eqb_refl; simpl.
      pose proof (holding_below _ _ _ _ Ha Hh).
      rewrite (proj2 (Nat.eqb_neq h n)) by lia. done.
    + by rewrite Nat.eqb_refl.
  - destruct (holding_bucket a) as [h|] eqn:Hh; simpl; [|done].
    pose proof (holding_below _ _ _ _ Ha Hh).
    rewrite (proj2 (Nat.eqb_neq n h)) by lia. simpl.
    by rewrite Nat.eqb_refl.
Qed.

Lemma held_scan_upto st n :
  held (Acquire BcacheLock :: scan_trace (scan_upto st n))
    = holding_locks (holding_bucket (scan_upto st n)) ++ [BcacheLock].
Proof.
  unfold held. simpl.
  induction n as [|n IH]; [done|].
  rewrite scan_upto_S. apply held_scan_bucket; [apply scan_upto_inv | done].
Qed.

Lemma acquired_scan_upto st n :
  acquired (scan_trace (scan_upto st n)) = map BucketLock (seq 0 n).
Proof.
  induction n as [|n IH]; [done|].
  rewrite scan_upto_S, seq_S, map_app. simpl.
  destruct (scan_bucket_cases st (scan_upto st n) n) as [E | [j E]];
    rewrite E; simpl; unfold acquired in *; rewrite flat_map_app, IH; simpl.
  - done.
  - by destruct (holding_bucket (scan_upto st n)).
Qed.

Lemma round_prefix_bound h n m round :
  round = idle_round n \/
  round = [Acquire (BucketLock n); Walk n] ++ release_holding h ->
  (length (List.filter is_bucket_lock
             (fold_left held_step (take m round)
                (holding_locks h ++ [BcacheLock]))) <= 2)%nat.
Proof.
  intros [-> | ->]; destruct h as [h|];
    do 4 (try destruct m as [|m]); simpl;
    repeat (match goal with |- context [Nat.eqb ?x ?y] =>
              destruct (Nat.eqb x y); simpl end);
    lia.
Qed.

Lemma bucket_locks_scan_prefix st n k :
  (bucket_locks_held (Acquire BcacheLock :: take k (scan_trace (scan_upto st n)))
   <= 2)%nat.
Proof.
  unfold bucket_locks_held, held. simpl fold_left.
  revert k. induction n as [|n IH]; intros k.
  - unfold scan_upto. simpl. rewrite take_nil. simpl. lia.
  - pose proof (held_scan_upto st n) as Hh. unfold held in Hh. simpl in Hh.
    rewrite scan_upto_S.
    destruct (decide (k <= length (scan_trace (scan_upto st n)))%nat) as [Hk|Hk].
    + destruct (scan_bucket_cases st (scan_upto st n) n) as [E | [j E]];
        rewrite E; simpl scan_trace; rewrite take_app_le by done; apply IH.
    + destruct (scan_bucket_cases st (scan_upto st n) n) as [E | [j E]];
        rewrite E; simpl scan_trace; rewrite take_app_ge by lia;
        rewrite fold_left_app, Hh; apply (round_prefix_bound _ n); auto.
Qed.

(** C5, as the code has it.  The scan acquires the bucket locks in the
    order 0, 1, ..., NBUCKET-1.  A round on bucket [n] acquires its lock
    and walks its chain while the lock of the bucket of the best
    candidate so far is still held; then either the bucket brought no
    new candidate and its lock is released at once, or it did and the
    lock of the bucket of the superseded candidate, if any, is released.
    So between rounds the locks held are [bcache.lock] and at most one
    bucket lock, that of [holding_bucket], the bucket of the candidate;
    and at every point of the scan at most two bucket locks are held. *)
Theorem scan_lock_discipline st :
  acquired (scan_trace (scan st)) = map BucketLock (seq 0 NBUCKET) /\
  (forall n,
     let a := scan_upto st n in
     let a' := scan_upto st (S n) in
     (before_least a' = before_least a /\
      holding_bucket a' = holding_bucket a /\
      scan_trace a' = scan_trace a ++ idle_round n) \/
     (exists j,
        before_least a' = Some {| bucket := n; hops := j |} /\
        holding_bucket a' = Some n /\
        scan_trace a' = scan_trace a ++ [Acquire (BucketLock n); Walk n] ++
                        release_holding (holding_bucket a))) /\
  (forall n,
     let a := scan_upto st n in
     held (Acquire BcacheLock :: scan_trace a)
       = holding_locks (holding_bucket a) ++ [BcacheLock] /\
     (bucket_locks_held (Acquire BcacheLock :: scan_trace a) <= 1)%nat /\
     holding_bucket a = option_map bucket (before_least a)) /\
  (forall k,
     (bucket_locks_held (Acquire BcacheLock :: take k (scan_trace (scan st)))
      <= 2)%nat).
Proof.
  split; [exact (acquired_scan_upto st NBUCKET)|]. split; [|split].
  - intros n a a'. subst a a'. rewrite scan_upto_S.
    destruct (scan_bucket_cases st (scan_upto st n) n) as [E | [j E]];
      rewrite E; [left | right; exists j]; done.
  - intros n a. subst a. split; [apply held_scan_upto|]. split.
    + unfold bucket_locks_held. rewrite held_scan_upto.
      destruct (holding_bucket (scan_upto st n)); simpl; lia.
    + pose proof (scan_upto_inv st n) as H. unfold scan_inv in H.
      destruct (before_least (scan_upto st n)); simpl; tauto.
  - intros k. exact (bucket_locks_scan_prefix st NBUCKET k).
Qed.

(** C5 as stated fails: two bucket locks are held while a bucket is
    scanned and a candidate of an earlier bucket is kept.  After
    [binit] every slot is free in bucket 0; the scan keeps the lock of
    bucket 0 and then acquires the lock of bucket 1. *)
Lemma scan_holds_two_bucket_locks :
  take 3 (scan_trace (scan (binit 30))) =
    [Acquire (BucketLock 0); Walk 0; Acquire (BucketLock 1)] /\
  held (Acquire BcacheLock :: take 3 (scan_trace (scan (binit 30)))) =
    [BucketLock 1; BucketLock 0; BcacheLock] /\
  bucket_locks_held (Acquire BcacheLock :: take 3 (scan_trace (scan (binit 30)))) = 2%nat.
Proof. vm_compute. repeat split; reflexivity. Qed.

(** ** The invariant of the cache *)

Lemma in_pool_intro st :
  length (buckets st) = NBUCKET ->
  (forall i s, s ∈ chain st i -> (s < length (bufs st))%nat) ->
  in_pool st = true.
Proof.
  intros Hl Hc. unfold in_pool. apply andb_true_iff. split.
  - by apply Nat.eqb_eq.
  - apply forallb_forall. intros l Hin%list_elem_of_In.
    apply list_elem_of_lookup in Hin as [i Hi].
    apply forallb_forall. intros s Hs%list_elem_of_In.
    apply Nat.ltb_lt, (Hc i). unfold chain.
    by rewrite (list_lookup_total_correct _ _ _ Hi).
Qed.

Lemma has_key_true d b x :
  has_key d b x = true <-> dev x = d /\ blockno x = b.
Proof.
  unfold has_key. rewrite andb_true_iff, !Z.eqb_eq. done.
Qed.

Lemma NoDup_delete_lookup (l : list nat) j x :
  NoDup l -> l !! j = Some x -> x ∉ delete j l.
Proof.
  intros Hnd Hj Hin. apply list_elem_of_lookup in Hin as [k Hk].
  destruct (decide (k < j)%nat) as [Hlt|Hge].
  - rewrite list_lookup_delete_lt in Hk by done.
    pose proof (NoDup_lookup _ _ _ _ Hnd Hj Hk). lia.
  - rewrite list_lookup_delete_ge in Hk by lia.
    pose proof (NoDup_lookup _ _ _ _ Hnd Hj Hk). lia.
Qed.

Lemma elem_of_delete_other (l : list nat) j x y :
  l !! j = Some x -> y ∈ l -> y <> x -> y ∈ delete j l.
Proof.
  intros Hj Hin Hne. apply list_elem_of_lookup in Hin as [k Hk].
  apply list_elem_of_lookup.
  destruct (decide (k < j)%nat) as [Hlt|Hge].
  - exists k. by rewrite list_lookup_delete_lt.
  - assert (k <> j) by (intros ->; congruence).
    exists (k - 1)%nat. rewrite list_lookup_delete_ge by lia.
    replace (S (k - 1)) with k by lia. done.
Qed.

(** The invariant looks at the chains, the size of the pool and the
    keys only. *)
Lemma cache_inv_transfer st st' :
  buckets st' = buckets st ->
  length (bufs st') = length (bufs st) ->
  (forall s, dev (slot st' s) = dev (slot st s) /\
             blockno (slot st' s) = blockno (slot st s)) ->
  cache_inv st -> cache_inv st'.
Proof.
  intros Hb Hl Hk (Hp & Hnd & Hh & Hall & Hu).
  assert (Hc : forall i, chain st' i = chain st i)
    by (intros i; unfold chain; by rewrite Hb).
  assert (Hkey : forall d b s, has_key d b (slot st' s) = has_key d b (slot st s)).
  { intros d b s. unfold has_key. destruct (Hk s) as [-> ->]. done. }
  split; [|split; [|split; [|split]]].
  - unfold in_pool in *. by rewrite Hb, Hl.
  - intros i. by rewrite Hc.
  - intros i s. rewrite Hc. destruct (Hk s) as [-> ->]. apply Hh.
  - intros s. rewrite Hl. intros Hs. destruct (Hall s Hs) as [i Hi].
    exists i. by rewrite Hc.
  - intros s1 s2 d b. rewrite Hl, !Hkey. apply Hu.
Qed.

Lemma cache_inv_upd s f st :
  (forall x, dev (f x) = dev x /\ blockno (f x) = blockno x) ->
  cache_inv st -> cache_inv (upd s f st).
Proof.
  intros Hf. apply cache_inv_transfer; [done | apply length_bufs_upd |].
  intros s'. destruct (slot_upd s s' f st) as [E|(-> & _ & E)]; rewrite E;
    [done | apply Hf].
Qed.

Lemma cache_inv_acquiresleep p s st :
  cache_inv st -> cache_inv (snd (acquiresleep p s st)).
Proof.
  apply cache_inv_transfer.
  - by destruct (acquiresleep_frame p s st 0%nat) as (_&_&_&_&_&_&H&_).
  - apply length_bufs_acquiresleep.
  - intros s'. by destruct (acquiresleep_frame p s st s') as (_&H1&H2&_).
Qed.

(** Under the invariant a key that the walk of its bucket does not
    find is the key of no slot. *)
Lemma uncached_nowhere st d b s :
  cache_inv st ->
  find_cached (bufs st) d b (chain st (BUFMAP_HASH d b)) = None ->
  (s < length (bufs st))%nat ->
  has_key d b (slot st s) = false.
Proof.
  intros (_ & _ & Hh & Hall & _) Hf Hs.
  destruct (has_key d b (slot st s)) eqn:Hk; [|done].
  destruct (Hall s Hs) as [i Hi].
  pose proof (Hh i s Hi) as Hi'.
  apply has_key_true in Hk as [Hd Hb]. rewrite Hd, Hb in Hi'. subst i.
  pose proof (find_cached_none _ _ _ _ s Hf Hi) as Hn.
  unfold slot in Hd, Hb. unfold has_key in Hn.
  rewrite Hd, Hb, !Z.eqb_refl in Hn. done.
Qed.

Lemma length_buckets_bget_evict a p ticks d b st :
  length (buckets (state_of (bget_evict a p ticks d b st)))
    = length (buckets st).
Proof.
  unfold bget_evict.
  destruct (before_least a) as [c|]; [|done].
  destruct (cursor_next st c) as [s|]; [|done]. cbv zeta.
  match goal with |- context [acquiresleep p s ?x] =>
    destruct (acquiresleep_frame p s x 0%nat) as (_&_&_&_&_&_&Hb&_);
    destruct (acquiresleep p s x) as [r st3] end.
  unfold state_of. simpl in *. rewrite Hb.
  destruct (negb _); simpl; by rewrite ?length_alter.
Qed.

(** Where the slots are after an eviction: the victim is in the bucket
    of the new key, every other slot is where it was. *)
Lemma evict_membership st st' c s key :
  cache_inv st ->
  cursor_next st c = Some s ->
  (bucket c = key -> buckets st' = buckets st) ->
  (bucket c <> key ->
   chain st' key = s :: chain st key /\
   chain st' (bucket c) = delete (hops c) (chain st (bucket c)) /\
   forall i, i <> key -> i <> bucket c -> chain st' i = chain st i) ->
  (forall i, NoDup (chain st' i)) /\
  (forall i s0, s0 ∈ chain st' i <->
                (s0 = s /\ i = key) \/ (s0 <> s /\ s0 ∈ chain st i)).
Proof.
  intros (_ & Hnd & Hh & _ & _) Hn Hsame Hmove.
  unfold cursor_next in Hn.
  assert (Hsin : s ∈ chain st (bucket c)) by (by apply list_elem_of_lookup_2 in Hn).
  assert (Hone : forall i, s ∈ chain st i -> i = bucket c).
  { intros i Hi. rewrite <- (Hh i s Hi). by apply Hh. }
  destruct (decide (bucket c = key)) as [E|E].
  - assert (Hc : forall i, chain st' i = chain st i)
      by (intros i; unfold chain; by rewrite (Hsame E)).
    split; [intros i; by rewrite Hc|].
    intros i s0. rewrite Hc. split.
    + intros Hi. destruct (decide (s0 = s)) as [->|Hne]; [left|right; done].
      split; [done|]. rewrite <- E. by apply Hone.
    + intros [[-> ->]|[_ Hi]]; [by rewrite <- E | done].
  - destruct (Hmove E) as (Hk & Hb & Ho).
    split.
    + intros i. destruct (decide (i = key)) as [->|Hik].
      * rewrite Hk. apply NoDup_cons. split; [|apply Hnd].
        intros Hi. apply Hone in Hi. congruence.
      * destruct (decide (i = bucket c)) as [->|Hib].
        -- rewrite Hb. apply (sublist_NoDup _ (chain st (bucket c)));
             [apply Hnd | apply sublist_delete].
        -- rewrite Ho by done. apply Hnd.
    + intros i s0. destruct (decide (i = key)) as [->|Hik].
      * rewrite Hk, elem_of_cons. split.
        -- intros [->|Hi]; [by left|].
           destruct (decide (s0 = s)) as [->|Hne]; [by left | by right].
        -- intros [[-> _]|[_ Hi]]; [by left | by right].
      * destruct (decide (i = bucket c)) as [->|Hib].
        -- rewrite Hb. split.
           ++ intros Hi. right. split.
              ** intros ->. by apply (NoDup_delete_lookup _ _ _ (Hnd (bucket c)) Hn).
              ** by apply list_elem_of_delete_inv in Hi.
           ++ intros [[_ ?]|[Hne Hi]]; [congruence|].
              by apply (elem_of_delete_other _ _ s).
        -- rewrite Ho by done. split.
           ++ intros Hi. right. split; [|done].
              intros ->. apply Hone in Hi. congruence.
           ++ intros [[_ ?]|[_ Hi]]; [congruence | done].
Qed.

Lemma cache_inv_bget_evict a p ticks d b st :
  scan_inv st NBUCKET a ->
  cache_inv st ->
  find_cached (bufs st) d b (chain st (BUFMAP_HASH d b)) = None ->
  cache_inv (state_of (bget_evict a p ticks d b st)).
Proof.
  intros Ha Hinv Hf.
  destruct (before_least a) as [c|] eqn:Hc;
    [|by rewrite (bget_evict_panic _ _ _ _ _ _ Hc)].
  pose proof Hinv as (Hp & Hnd & Hh & Hall & Hu).
  destruct (bget_evict_spec a p ticks d b st c Ha Hp Hc)
    as (s & Hv & _ & Hd & Hb & _ & _ & _ & _ & Hsame & Hmove & Hoth & Hlen).
  pose proof (length_buckets_bget_evict a p ticks d b st) as Hlb.
  unfold victim_of in Hv. rewrite Hc in Hv.
  pose proof (cursor_next_in_pool _ _ _ Hp Hv) as Hs.
  revert Hd Hb Hsame Hmove Hoth Hlen Hlb.
  generalize (state_of (bget_evict a p ticks d b st)). intros st'.
  cbv zeta. set (key := BUFMAP_HASH d b). intros Hd Hb Hsame Hmove Hoth Hlen Hlb.
  destruct (evict_membership st st' c s key Hinv Hv Hsame Hmove) as [Hnd' Hmem].
  assert (Hkey : forall s0 d' b', s0 <> s ->
            has_key d' b' (slot st' s0) = has_key d' b' (slot st s0))
    by (intros s0 d' b' Hne; by rewrite Hoth).
  split; [|split; [|split; [|split]]].
  - apply in_pool_intro.
    + rewrite Hlb. by apply in_pool_length.
    + intros i s0 [[-> _]|[_ Hi]]%Hmem; rewrite Hlen; [done|].
      by apply (in_pool_chain st i).
  - done.
  - intros i s0 [[-> ->]|[Hne Hi]]%Hmem.
    + by rewrite Hd, Hb.
    + rewrite Hoth by done. by apply Hh.
  - intros s0. rewrite Hlen. intros Hs0.
    destruct (decide (s0 = s)) as [->|Hne].
    + exists key. apply Hmem. by left.
    + destruct (Hall s0 Hs0) as [i Hi]. exists i. apply Hmem. by right.
  - assert (Hfresh : forall s0, (s0 < length (bufs st))%nat -> s0 <> s ->
              has_key d b (slot st' s0) = false).
    { intros s0 Hs0 Hne. rewrite Hkey by done. by apply uncached_nowhere. }
    assert (Hnew : forall d' b', has_key d' b' (slot st' s) = true ->
              d' = d /\ b' = b).
    { intros d' b' [? ?]%has_key_true. split; congruence. }
    intros s1 s2 d' b'. rewrite Hlen. intros Hs1 Hs2 Hk1 Hk2 Hnz.
    destruct (decide (s1 = s)) as [->|Hne1];
      destruct (decide (s2 = s)) as [->|Hne2]; [done| | |].
    + destruct (Hnew _ _ Hk1) as [-> ->].
      rewrite Hfresh in Hk2 by done. done.
    + destruct (Hnew _ _ Hk2) as [-> ->].
      rewrite Hfresh in Hk1 by done. done.
    + rewrite Hkey in Hk1, Hk2 by done. by apply (Hu s1 s2 d' b').
Qed.

(** ** The state after binit *)

Lemma alter_replicate_fix (f : buf -> buf) x n i :
  f x = x -> alter f i (replicate n x) = replicate n x.
Proof.
  intros Hf. revert i. induction n as [|n IH]; intros [|i]; simpl; try done.
  - by rewrite Hf.
  - f_equal. apply IH.
Qed.

Lemma binit_link_fold n k : forall a c0,
  fold_left binit_link (seq a k)
    {| bufs := replicate n zero_buf;
       buckets := c0 :: replicate 12 [];
       disk := fun _ _ => [] |}
  = {| bufs := replicate n zero_buf;
       buckets := (rev (seq a k) ++ c0) :: replicate 12 [];
       disk := fun _ _ => [] |}.
Proof.
  induction k as [|k IH]; intros a c0; [done|].
  cbn [seq fold_left].
  assert (E : binit_link
                {| bufs := replicate n zero_buf;
                   buckets := c0 :: replicate 12 [];
                   disk := fun _ _ => [] |} a
              = {| bufs := replicate n zero_buf;
                   buckets := (a :: c0) :: replicate 12 [];
                   disk := fun _ _ => [] |}).
  { unfold binit_link, set_chain, upd. cbn [bufs buckets disk].
    by rewrite alter_replicate_fix. }
  rewrite E, IH. cbn [rev]. by rewrite <- app_assoc.
Qed.

Lemma binit_eq nbuf :
  binit nbuf =
    {| bufs := replicate nbuf zero_buf;
       buckets := rev (seq 0 nbuf) :: replicate 12 [];
       disk := fun _ _ => [] |}.
Proof.
  unfold binit. change (replicate NBUCKET []) with (@nil nat :: replicate 12 []).
  by rewrite binit_link_fold, app_nil_r.
Qed.

Lemma slot_binit nbuf s : slot (binit nbuf) s = zero_buf.
Proof.
  rewrite binit_eq. unfold slot. cbn [bufs].
  rewrite list_lookup_total_alt.
  destruct (replicate nbuf zero_buf !! s) as [x|] eqn:E; [|done].
  by apply lookup_replicate_1 in E as [-> _].
Qed.

Lemma chain_binit nbuf i :
  chain (binit nbuf) i = match i with O => rev (seq 0 nbuf) | S _ => [] end.
Proof.
  rewrite binit_eq. unfold chain. cbn [buckets].
  destruct i as [|i]; [done|].
  rewrite list_lookup_total_alt. cbn [lookup list_lookup].
  change (replicate 12 [] !! i) with (replicate 12 (@nil nat) !! i).
  destruct (replicate 12 (@nil nat) !! i) as [x|] eqn:E; [|done].
  by apply lookup_replicate_1 in E as [-> _].
Qed.

Lemma cache_inv_binit nbuf : cache_inv (binit nbuf).
Proof.
  assert (Hlen : length (bufs (binit nbuf)) = nbuf)
    by (rewrite binit_eq; apply length_replicate).
  assert (Hmem : forall i s, s ∈ chain (binit nbuf) i ->
                   i = 0%nat /\ (s < nbuf)%nat).
  { intros i s. rewrite chain_binit. destruct i as [|i].
    - intros Hs%list_elem_of_In%in_rev%in_seq. split; [done | lia].
    - intros Hs. by apply elem_of_nil in Hs. }
  split; [|split; [|split; [|split]]].
  - apply in_pool_intro.
    + rewrite binit_eq. cbn [buckets length]. by rewrite length_replicate.
    + intros i s Hs. rewrite Hlen. by apply (Hmem i).
  - intros i. rewrite chain_binit. destruct i; [|apply NoDup_nil_2].
    apply NoDup_ListNoDup, NoDup_rev, seq_NoDup.
  - intros i s Hs. apply Hmem in Hs as [-> _]. by rewrite slot_binit.
  - intros s. rewrite Hlen. intros Hs. exists 0%nat. rewrite chain_binit.
    apply list_elem_of_In. rewrite <- in_rev. apply in_seq. lia.
  - intros s1 s2 d b _ _ Hk _ Hnz. exfalso. apply Hnz.
    rewrite slot_binit in Hk. apply has_key_true in Hk as [<- <-]. done.
Qed.

(** ** The invariant along every sequence of calls *)

Lemma cache_inv_bget_slow p ticks d b st :
  cache_inv st -> cache_inv (state_of (bget_slow p ticks d b st)).
Proof.
  intros Hinv.
  destruct (find_cached (bufs st) d b (chain st (BUFMAP_HASH d b)))
    as [s|] eqn:Hf.
  - rewrite (bget_slow_hit _ _ _ _ _ _ Hf). unfold state_of. cbn [fst snd].
    apply cache_inv_acquiresleep, cache_inv_upd; [|done]. done.
  - rewrite (bget_slow_miss _ _ _ _ _ Hf).
    forget_scan st a Ha. by apply cache_inv_bget_evict.
Qed.

Lemma cache_inv_exec st c : cache_inv st -> cache_inv (exec st c).
Proof.
  intros Hinv.
  destruct c as [p t d b|p t d b|p t d b|p s|p s|p s|p t s|s|s]; unfold exec.
  - rewrite state_of_bget. by apply cache_inv_bget_slow.
  - by apply cache_inv_bget_slow.
  - rewrite state_of_bread, result_of_bget, state_of_bget.
    pose proof (cache_inv_bget_slow p t d b st Hinv) as H1.
    destruct (result_of (bget_slow p t d b st)) as [s1| |]; [|done|done].
    destruct (bread_fill_frame s1 (state_of (bget_slow p t d b st)) 0%nat)
      as (_ & _ & _ & _ & _ & Hb & Hl).
    eapply cache_inv_transfer; [exact Hb | exact Hl | | exact H1].
    intros s'.
    by destruct (bread_fill_frame s1 (state_of (bget_slow p t d b st)) s')
      as (? & ? & _).
  - by apply cache_inv_acquiresleep.
  - destruct (bread_resume_frame p s st 0%nat) as (_ & _ & _ & _ & Hb & Hl).
    eapply cache_inv_transfer; [exact Hb | exact Hl | | exact Hinv].
    intros s'. by destruct (bread_resume_frame p s st s') as (? & ? & _).
  - unfold bwrite. destruct (negb (holdingsleep p (slot st s))); [done|].
    by apply (cache_inv_transfer st).
  - destruct (holdingsleep p (slot st s)) eqn:Hh.
    + rewrite state_of_brelse by done. unfold releasesleep.
      apply cache_inv_upd; [|by apply cache_inv_upd].
      intros x. unfold drop_ref. by destruct (_ =? 0).
    + by rewrite state_of_brelse_panic.
  - unfold bpin, state_of. cbn [fst snd]. by apply cache_inv_upd.
  - unfold bunpin, state_of. cbn [fst snd]. by apply cache_inv_upd.
Qed.

Lemma cache_inv_run cs : forall st, cache_inv st -> cache_inv (run cs st).
Proof.
  induction cs as [|c cs IH]; intros st Hinv; [done|].
  unfold run. cbn [fold_left]. apply IH. by apply cache_inv_exec.
Qed.

(** ** Counting the slots of a key *)

Lemma filter_none (P : buf -> bool) (l : list buf) :
  (forall j, (j < length l)%nat -> P (l !!! j) = false) ->
  List.filter P l = [].
Proof.
  induction l as [|x l IH]; intros H; [done|]. simpl.
  pose proof (H 0%nat) as H0. simpl in H0. rewrite H0 by lia.
  apply IH. intros j Hj. apply (H (S j)). simpl; lia.
Qed.

Lemma filter_at_most_one (P : buf -> bool) (l : list buf) :
  (forall i j, (i < length l)%nat -> (j < length l)%nat ->
     P (l !!! i) = true -> P (l !!! j) = true -> i = j) ->
  (length (List.filter P l) <= 1)%nat.
Proof.
  induction l as [|x l IH]; intros H; [simpl; lia|]. simpl.
  destruct (P x) eqn:Hx.
  - rewrite filter_none; [simpl; lia|].
    intros j Hj. destruct (P (l !!! j)) eqn:Hj'; [|done].
    assert (0 = S j)%nat; [|lia].
    apply H; simpl; [lia | lia | done | done].
  - apply IH. intros i j Hi Hj Hpi Hpj.
    assert (S i = S j); [|lia].
    apply H; simpl; [lia | lia | done | done].
Qed.

Lemma filter_at_least_one (P : buf -> bool) (l : list buf) : forall i,
  (i < length l)%nat -> P (l !!! i) = true ->
  (1 <= length (List.filter P l))%nat.
Proof.
  induction l as [|x l IH]; intros i Hi Hp; [simpl in Hi; lia|]. simpl.
  destruct (P x) eqn:Hx; [simpl; lia|].
  destruct i as [|i]; [simpl in Hp; congruence|].
  apply (IH i); [simpl in Hi; lia | done].
Qed.

Lemma filter_alter_length (P : buf -> bool) (f : buf -> buf) (l : list buf) :
  (forall x, P (f x) = P x) ->
  forall i, length (List.filter P (alter f i l)) = length (List.filter P l).
Proof.
  intros Hf. induction l as [|x l IH]; intros [|i]; simpl; try done.
  - rewrite Hf. by destruct (P x).
  - destruct (P x); simpl; [f_equal|]; apply IH.
Qed.

Lemma count_key_upd d b s f st :
  (forall x, dev (f x) = dev x /\ blockno (f x) = blockno x) ->
  count_key d b (upd s f st) = count_key d b st.
Proof.
  intros Hf. unfold count_key, upd. cbn [bufs].
  apply filter_alter_length. intros x. unfold has_key.
  by destruct (Hf x) as [-> ->].
Qed.

Lemma count_key_le_1 d b st :
  cache_inv st -> (d, b) <> (0, 0) -> (count_key d b st <= 1)%nat.
Proof.
  intros (_ & _ & _ & _ & Hu) Hnz. unfold count_key.
  apply filter_at_most_one. intros i j Hi Hj Hpi Hpj.
  by apply (Hu i j d b).
Qed.

Lemma bget_fast_none p ticks d b st :
  bget_fast p ticks d b st = None <->
  find_cached (bufs st) d b (chain st (BUFMAP_HASH d b)) = None.
Proof.
  unfold bget_fast.
  destruct (find_cached (bufs st) d b (chain st (BUFMAP_HASH d b))) as [s|];
    [|done].
  by destruct (acquiresleep p s (upd s (take_ref ticks) st)).
Qed.

(** ** Two lookups of the same uncached key *)

Lemma evict_then_found a p ticks d b st s :
  scan_inv st NBUCKET a ->
  cache_inv st ->
  find_cached (bufs st) d b (chain st (BUFMAP_HASH d b)) = None ->
  result_of (bget_evict a p ticks d b st) = Ret s ->
  let st1 := state_of (bget_evict a p ticks d b st) in
  cache_inv st1 /\
  (s < length (bufs st1))%nat /\
  has_key d b (slot st1 s) = true /\
  refcnt (slot st1 s) = 1 /\
  lock (slot st1 s) = Some p /\
  (forall s', (s' < length (bufs st1))%nat ->
              has_key d b (slot st1 s') = true -> s' = s) /\
  find_cached (bufs st1) d b (chain st1 (BUFMAP_HASH d b)) = Some s.
Proof.
  intros Ha Hinv Hf Hr.
  pose proof (cache_inv_bget_evict a p ticks d b st Ha Hinv Hf) as Hinv1.
  destruct (before_least a) as [c|] eqn:Hc;
    [|by rewrite (bget_evict_panic _ _ _ _ _ _ Hc) in Hr].
  pose proof Hinv as (Hp & _).
  destruct (bget_evict_spec a p ticks d b st c Ha Hp Hc)
    as (s0 & Hv & Hres & Hd & Hb & _ & Hrc & _ & Hin & _ & _ & Hoth & Hlen).
  unfold victim_of in Hv. rewrite Hc in Hv.
  pose proof (cursor_next_in_pool _ _ _ Hp Hv) as Hs.
  destruct Hres as [(Hres & _ & Hlock)|(Hres & _)]; [|congruence].
  assert (s0 = s) as -> by congruence. clear Hres Hr.
  revert Hinv1 Hd Hb Hrc Hin Hoth Hlen Hlock.
  generalize (state_of (bget_evict a p ticks d b st)). intros st1.
  cbv zeta. intros Hinv1 Hd Hb Hrc Hin Hoth Hlen Hlock.
  assert (Hk : has_key d b (slot st1 s) = true) by (by apply has_key_true).
  assert (Hone : forall s', (s' < length (bufs st1))%nat ->
                   has_key d b (slot st1 s') = true -> s' = s).
  { intros s' Hs' Hk'. destruct (decide (s' = s)) as [|Hne]; [done|].
    rewrite Hoth in Hk' by done. rewrite Hlen in Hs'.
    by rewrite (uncached_nowhere st d b s' Hinv Hf Hs') in Hk'. }
  split; [done|]. split; [lia|]. split; [done|]. split; [done|].
  split; [done|]. split; [done|].
  destruct (find_cached (bufs st1) d b (chain st1 (BUFMAP_HASH d b)))
    as [s'|] eqn:Hf1.
  - apply find_cached_some in Hf1 as [Hin' Hk']. f_equal.
    apply Hone; [|done].
    destruct Hinv1 as (Hp1 & _). by apply (in_pool_chain _ _ _ Hp1 Hin').
  - pose proof (find_cached_none _ _ _ _ s Hf1 Hin) as Hn.
    unfold slot in Hk. congruence.
Qed.

Lemma count_key_zero d b st :
  (forall s, (s < length (bufs st))%nat -> has_key d b (slot st s) = false) ->
  count_key d b st = 0%nat.
Proof. intros H. unfold count_key. by rewrite filter_none. Qed.

Lemma count_key_one d b st s :
  (s < length (bufs st))%nat ->
  has_key d b (slot st s) = true ->
  (forall s', (s' < length (bufs st))%nat ->
              has_key d b (slot st s') = true -> s' = s) ->
  count_key d b st = 1%nat.
Proof.
  intros Hs Hk Hone. unfold count_key.
  pose proof (filter_at_least_one (has_key d b) (bufs st) s Hs Hk).
  pose proof (filter_at_most_one (has_key d b) (bufs st)) as Hle.
  cut (length (List.filter (has_key d b) (bufs st)) <= 1)%nat; [lia|].
  apply Hle. intros i j Hi Hj Hpi Hpj.
  rewrite (Hone i Hi Hpi), (Hone j Hj Hpj). done.
Qed.

Lemma state_of_mk {A : Type} (r : result A) st tr : state_of (r, st, tr) = st.
Proof. reflexivity. Qed.

Lemma second_lookup_joins st d b p1 p2 t1 t2 s :
  cache_inv st ->
  find_cached (bufs st) d b (chain st (BUFMAP_HASH d b)) = None ->
  result_of (bget_slow p1 t1 d b st) = Ret s ->
  let key := BUFMAP_HASH d b in
  let st1 := state_of (bget_slow p1 t1 d b st) in
  let st2 := state_of (bget_slow p2 t2 d b st1) in
  count_key d b st = 0%nat /\
  count_key d b st1 = 1%nat /\
  has_key d b (slot st1 s) = true /\
  trace_of (bget_slow p2 t2 d b st1) =
    [Acquire BcacheLock; Walk key;
     Acquire (BucketLock key); Release (BucketLock key);
     Release BcacheLock; AcquireSleep s] /\
  result_of (bget_slow p2 t2 d b st1) = Sleep s /\
  count_key d b st2 = 1%nat /\
  has_key d b (slot st2 s) = true /\
  refcnt (slot st2 s) = 2 /\
  buckets st2 = buckets st1 /\
  forall t3, fst (acquiresleep p2 s (state_of (brelse p1 t3 s st2))) = Ret s.
Proof.
  intros Hinv Hf. rewrite (bget_slow_miss _ _ _ _ _ Hf).
  forget_scan st a Ha. intros Hr key.
  assert (H0 : count_key d b st = 0%nat)
    by (apply count_key_zero; intros s' Hs'; by apply uncached_nowhere).
  destruct (evict_then_found a p1 t1 d b st s Ha Hinv Hf Hr)
    as (Hinv1 & Hs & Hk & Hrc & Hlock & Hone & Hf1).
  revert Hinv1 Hs Hk Hrc Hlock Hone Hf1.
  generalize (state_of (bget_evict a p1 t1 d b st)). intros st1.
  intros Hinv1 Hs Hk Hrc Hlock Hone Hf1. cbv zeta.
  rewrite (bget_slow_hit _ _ _ _ _ _ Hf1).
  rewrite !state_of_mk. unfold result_of, trace_of. cbn [fst snd]. fold key.
  assert (Hslot : slot (upd s (take_ref t2) st1) s = take_ref t2 (slot st1 s))
    by (by rewrite slot_upd_eq).
  destruct (acquiresleep_cases p2 s (upd s (take_ref t2) st1))
    as [[Hfree _]|[_ E]].
  { rewrite Hslot in Hfree. simpl in Hfree. congruence. }
  rewrite E. cbn [fst snd]. rewrite Hslot.
  split; [done|]. split; [by apply (count_key_one d b st1 s)|].
  split; [done|]. split; [done|]. split; [done|]. split.
  { rewrite count_key_upd by done. by apply (count_key_one d b st1 s). }
  split; [done|]. split; [simpl; by rewrite Hrc|]. split; [done|].
  intros t3.
  assert (Hh : holdingsleep p1 (slot (upd s (take_ref t2) st1) s) = true).
  { rewrite Hslot. unfold holdingsleep. simpl. rewrite Hlock.
    apply Nat.eqb_refl. }
  rewrite state_of_brelse by done. unfold releasesleep.
  destruct (acquiresleep_cases p2 s
              (upd s (drop_ref t3) (upd s (set_lock None)
                 (upd s (take_ref t2) st1))))
    as [[_ E']|[Hbusy _]]; [by rewrite E'|].
  exfalso. apply Hbusy.
  rewrite !slot_upd_eq by (by rewrite ?length_bufs_upd).
  unfold drop_ref. by destruct (_ =? 0).
Qed.

(** ** One slot for a key *)

(** C1, as the code has it.  In every state reached from [binit] by
    lookups ([bget], [bread]), releases, pins and unpins -- the slow
    half of a lookup being allowed to run at any later point after its
    miss -- at most one slot carries a given key other than (0, 0), the
    key every slot of the zero-initialised pool starts with.  And when
    two lookups of a key that no slot carries both miss in the fast
    path, and the slow path of the first claims slot [s] for the key
    and returns it, the slow path of the second finds [s] in its
    re-check: it evicts nothing, references [s] a second time and is
    suspended on the sleep lock of [s], which it gets as soon as the
    first caller releases the slot; one slot carries the key
    throughout. *)
Theorem cache_key_unique nbuf cs :
  let st := run cs (binit nbuf) in
  (forall d b, (d, b) <> (0, 0) -> (count_key d b st <= 1)%nat) /\
  (forall d b p1 p2 t1 t2 s,
     bget_fast p1 t1 d b st = None ->
     bget_fast p2 t2 d b st = None ->
     result_of (bget_slow p1 t1 d b st) = Ret s ->
     let key := BUFMAP_HASH d b in
     let st1 := state_of (bget_slow p1 t1 d b st) in
     let st2 := state_of (bget_slow p2 t2 d b st1) in
     count_key d b st = 0%nat /\
     count_key d b st1 = 1%nat /\
     has_key d b (slot st1 s) = true /\
     trace_of (bget_slow p2 t2 d b st1) =
       [Acquire BcacheLock; Walk key;
        Acquire (BucketLock key); Release (BucketLock key);
        Release BcacheLock; AcquireSleep s] /\
     result_of (bget_slow p2 t2 d b st1) = Sleep s /\
     count_key d b st2 = 1%nat /\
     has_key d b (slot st2 s) = true /\
     refcnt (slot st2 s) = 2 /\
     buckets st2 = buckets st1 /\
     forall t3, fst (acquiresleep p2 s (state_of (brelse p1 t3 s st2))) = Ret s).
Proof.
  intros st.
  assert (Hinv : cache_inv st) by apply cache_inv_run, cache_inv_binit.
  split.
  - intros d b Hnz. by apply count_key_le_1.
  - intros d b p1 p2 t1 t2 s Hm1%bget_fast_none _ Hr.
    by apply second_lookup_joins.
Qed.

Lemma cache_key_unique_witness :
  let st := run [Bread 7%nat 3 1 4; Brelse 7%nat 4 2] (binit 3) in
  let st1 := state_of (bget_slow 7%nat 5 1 5 st) in
  let st2 := state_of (bget_slow 8%nat 6 1 5 st1) in
  (count_key 1 4 st <= 1)%nat /\
  count_key 1 5 st1 = 1%nat /\
  result_of (bget_slow 8%nat 6 1 5 st1) = Sleep 1%nat /\
  count_key 1 5 st2 = 1%nat /\
  refcnt (slot st2 1) = 2.
Proof.
  destruct (cache_key_unique 3 [Bread 7%nat 3 1 4; Brelse 7%nat 4 2])
    as [Hu Hj].
  split; [apply Hu; discriminate|].
  destruct (Hj 1 5 7%nat 8%nat 5 6 1%nat)
    as (_ & H1 & _ & _ & Hr & H2 & _ & Hc & _); [vm_compute; reflexivity ..|].
  repeat split; assumption.
Defined.

(** C1 as stated fails for the key (0, 0): [binit] leaves [dev] and
    [blockno] of every slot of the static pool at zero, so all slots
    carry that key until they are evicted. *)
Lemma zero_key_in_every_slot :
  count_key 0 0 (binit 30) = 30%nat /\
  count_key 0 0 (run [Bread 7%nat 5 1 5; Brelse 7%nat 6 29] (binit 30)) = 29%nat.
Proof. vm_compute. repeat split; reflexivity. Qed.

(** * Further properties of the code *)

(** ** The hash of a key *)

(** X11.  [BUFMAP_HASH] yields an index of [bcache.buckets], and the
    shift by 27 drops all but the low five bits of the device number:
    devices 32 apart hash alike. *)
Theorem BUFMAP_HASH_bucket d b :
  (BUFMAP_HASH d b < NBUCKET)%nat /\
  BUFMAP_HASH (d + 32) b = BUFMAP_HASH d b.
Proof.
  split; [apply BUFMAP_HASH_lt|].
  unfold BUFMAP_HASH, wrap. do 2 f_equal. f_equal.
  rewrite !Z.shiftl_mul_pow2 by lia.
  replace ((d + 32) * 2 ^ 27) with (d * 2 ^ 27 + 1 * 2 ^ 32) by lia.
  apply Z.mod_add. lia.
Qed.

(** ** The pool that binit leaves *)

(** X1.  After [binit] the pool has its [nbuf] slots, all of them with
    zero count and time stamp, a free sleep lock and the key (0, 0);
    there are NBUCKET chains, bucket 0 holds every slot, the one linked
    last first, and the other buckets are empty. *)
Theorem binit_all_in_bucket_0 nbuf :
  let st := binit nbuf in
  length (bufs st) = nbuf /\
  length (buckets st) = NBUCKET /\
  chain st 0 = rev (seq 0 nbuf) /\
  (forall i, i <> 0%nat -> chain st i = []) /\
  (forall s, slot st s = zero_buf) /\
  in_pool st = true.
Proof.
  cbv zeta. split; [rewrite binit_eq; apply length_replicate|].
  split; [rewrite binit_eq; cbn [buckets length]; by rewrite length_replicate|].
  split; [apply (chain_binit nbuf 0)|].
  split; [intros [|i] Hi; [done | apply (chain_binit nbuf (S i))]|].
  split; [apply slot_binit|].
  by destruct (cache_inv_binit nbuf) as (Hp & _).
Qed.

(** ** Every slot in one bucket *)

Lemma length_bufs_bget_evict a p ticks d b st :
  length (bufs (state_of (bget_evict a p ticks d b st))) = length (bufs st).
Proof.
  unfold bget_evict.
  destruct (before_least a) as [c|]; [|done].
  destruct (cursor_next st c) as [s|]; [|done]. cbv zeta.
  match goal with |- context [acquiresleep p s ?x] =>
    pose proof (length_bufs_acquiresleep p s x) as Hl;
    destruct (acquiresleep p s x) as [r st3] end.
  unfold state_of. cbn [fst snd] in *. rewrite Hl, length_bufs_upd.
  by destruct (negb _).
Qed.

Lemma length_bufs_bget_slow p ticks d b st :
  length (bufs (state_of (bget_slow p ticks d b st))) = length (bufs st).
Proof.
  destruct (find_cached (bufs st) d b (chain st (BUFMAP_HASH d b)))
    as [s|] eqn:Hf.
  - rewrite (bget_slow_hit _ _ _ _ _ _ Hf), state_of_mk.
    by rewrite length_bufs_acquiresleep, length_bufs_upd.
  - rewrite (bget_slow_miss _ _ _ _ _ Hf). apply length_bufs_bget_evict.
Qed.

Lemma length_bufs_exec st c : length (bufs (exec st c)) = length (bufs st).
Proof.
  destruct c as [p t d b|p t d b|p t d b|p s|p s|p s|p t s|s|s]; unfold exec.
  - rewrite state_of_bget. apply length_bufs_bget_slow.
  - apply length_bufs_bget_slow.
  - rewrite state_of_bread, result_of_bget, state_of_bget.
    destruct (result_of (bget_slow p t d b st)) as [s1| |];
      try apply length_bufs_bget_slow.
    destruct (bread_fill_frame s1 (state_of (bget_slow p t d b st)) 0%nat)
      as (_ & _ & _ & _ & _ & _ & ->).
    apply length_bufs_bget_slow.
  - apply length_bufs_acquiresleep.
  - by destruct (bread_resume_frame p s st 0%nat) as (_ & _ & _ & _ & _ & ->).
  - unfold bwrite. by destruct (negb (holdingsleep p (slot st s))).
  - destruct (holdingsleep p (slot st s)) eqn:Hh.
    + rewrite state_of_brelse by done. unfold releasesleep.
      by rewrite !length_bufs_upd.
    + by rewrite state_of_brelse_panic.
  - unfold bpin. rewrite state_of_mk. apply length_bufs_upd.
  - unfold bunpin. rewrite state_of_mk. apply length_bufs_upd.
Qed.

Lemma length_bufs_run cs : forall st, length (bufs (run cs st)) = length (bufs st).
Proof.
  induction cs as [|c cs IH]; intros st; [done|].
  unfold run. cbn [fold_left]. fold (run cs (exec st c)).
  by rewrite IH, length_bufs_exec.
Qed.

(** X2.  Whatever calls have been made since [binit], the pool has its
    [nbuf] slots and there are NBUCKET chains; every slot is in exactly
    one chain, the one of the bucket its key hashes to, and occurs once
    in it; and the chains hold nothing but slots of the pool.  Relinking
    on eviction neither loses nor duplicates a buffer. *)
Theorem every_slot_in_its_bucket nbuf cs :
  let st := run cs (binit nbuf) in
  length (bufs st) = nbuf /\
  length (buckets st) = NBUCKET /\
  (forall i, NoDup (chain st i)) /\
  (forall i s, s ∈ chain st i -> (s < nbuf)%nat) /\
  (forall s, (s < nbuf)%nat ->
     let i := BUFMAP_HASH (dev (slot st s)) (blockno (slot st s)) in
     (i < NBUCKET)%nat /\ s ∈ chain st i /\
     forall j, s ∈ chain st j -> j = i).
Proof.
  intros st.
  assert (Hlen : length (bufs st) = nbuf).
  { subst st. rewrite length_bufs_run, binit_eq. apply length_replicate. }
  destruct (cache_inv_run cs _ (cache_inv_binit nbuf))
    as (Hp & Hnd & Hh & Hall & _). fold st in Hp, Hnd, Hh, Hall.
  split; [done|]. split; [by apply in_pool_length|]. split; [done|].
  split; [intros i s Hs; rewrite <- Hlen; by apply (in_pool_chain st i)|].
  intros s Hs i. split; [apply BUFMAP_HASH_lt|].
  rewrite <- Hlen in Hs. destruct (Hall s Hs) as [j Hj].
  pose proof (Hh j s Hj) as E. fold i in E. subst j.
  split; [done|]. intros j Hj'. symmetry. by apply Hh.
Qed.

(** ** How a lookup ends *)

Lemma before_least_scan_bucket st a n :
  before_least (scan_bucket st a n)
    = fst (scan_chain st n 0 (chain st n) (before_least a, false)).
Proof.
  unfold scan_bucket.
  destruct (scan_chain st n 0 (chain st n) (before_least a, false)) as [bl nf].
  by destruct nf.
Qed.

(** The first free slot of a chain is always taken when there is no
    candidate yet. *)
Lemma scan_chain_none st i rest : forall j nf,
  fst (scan_chain st i j rest (None, nf)) = None ->
  forallb (fun s => negb (refcnt (slot st s) =? 0)) rest = true.
Proof.
  induction rest as [|s rest IH]; intros j nf; simpl; [done|].
  destruct (refcnt (slot st s) =? 0) eqn:Hr; simpl.
  - intros H. exfalso.
    destruct (scan_chain_flag st i rest (S j)
                (Some {| bucket := i; hops := j |}) true) as [E | [j' E]];
      rewrite E in H; discriminate.
  - apply IH.
Qed.

Lemma scan_upto_none st n :
  before_least (scan_upto st n) = None -> referenced_below st n = true.
Proof.
  unfold referenced_below. induction n as [|n IH]; [done|].
  rewrite scan_upto_S, before_least_scan_bucket, seq_S, forallb_app.
  destruct (before_least (scan_upto st n)) as [c|] eqn:Hc.
  - intros H. exfalso.
    destruct (scan_chain_flag st n (chain st n) 0 (Some c) false)
      as [E | [j' E]]; rewrite E in H; discriminate.
  - intros H%scan_chain_none. cbn [forallb Nat.add].
    rewrite H, IH by done. done.
Qed.

Lemma scan_none st :
  before_least (scan st) = None -> referenced_below st NBUCKET = true.
Proof. exact (scan_upto_none st NBUCKET). Qed.

Lemma referenced_below_all st :
  in_pool st = true ->
  referenced_below st NBUCKET = true -> all_referenced st = true.
Proof.
  intros Hp H. unfold all_referenced, referenced_below in *.
  rewrite forallb_forall in H. apply forallb_forall.
  intros l Hin%list_elem_of_In.
  apply list_elem_of_lookup in Hin as [i Hi].
  pose proof (lookup_lt_Some _ _ _ Hi) as Hlt.
  rewrite (in_pool_length _ Hp) in Hlt.
  specialize (H i). unfold chain in H.
  rewrite (list_lookup_total_correct _ _ _ Hi) in H.
  apply H, in_seq. lia.
Qed.

Lemma bget_slow_outcome p ticks d b st :
  in_pool st = true ->
  let r := result_of (bget_slow p ticks d b st) in
  let st' := state_of (bget_slow p ticks d b st) in
  (exists s,
     (lock (slot st s) = None /\ r = Ret s /\ lock (slot st' s) = Some p \/
      lock (slot st s) <> None /\ r = Sleep s) /\
     (s < length (bufs st))%nat /\
     has_key d b (slot st' s) = true /\
     s ∈ chain st' (BUFMAP_HASH d b) /\
     (find_cached (bufs st) d b (chain st (BUFMAP_HASH d b)) = None ->
      valid (slot st' s) = 0 /\ refcnt (slot st' s) = 1) /\
     disk st' = disk st) \/
  (r = Abort "bget: no buffers" /\ st' = st /\
   find_cached (bufs st) d b (chain st (BUFMAP_HASH d b)) = None /\
   all_referenced st = true).
Proof.
  intros Hp.
  destruct (find_cached (bufs st) d b (chain st (BUFMAP_HASH d b)))
    as [s|] eqn:Hf.
  - left. exists s. rewrite (bget_slow_hit _ _ _ _ _ _ Hf), state_of_mk.
    unfold result_of. cbn [fst].
    destruct (find_cached_some _ _ _ _ _ Hf) as [Hin Hk].
    pose proof (in_pool_chain _ _ _ Hp Hin) as Hs.
    set (st1 := upd s (take_ref ticks) st).
    assert (Hslot1 : slot st1 s = take_ref ticks (slot st s))
      by (subst st1; by rewrite slot_upd_eq).
    split.
    { destruct (acquiresleep_cases p s st1) as [[Hfree E]|[Hbusy E]];
        rewrite E; cbn [fst snd]; rewrite Hslot1 in *; simpl in *.
      - left. repeat split; [done|].
        rewrite slot_upd_eq by (subst st1; by rewrite length_bufs_upd).
        done.
      - by right. }
    split; [done|]. split.
    { apply has_key_true. subst st1.
      destruct (hit_frame p ticks s st s) as (-> & -> & _).
      by apply has_key_true. }
    split; [by rewrite chain_acquiresleep|]. split; [done|].
    by destruct (acquiresleep_frame p s st1 0%nat) as (_&_&_&_&_&_&_&->&_).
  - rewrite (bget_slow_miss _ _ _ _ _ Hf).
    pose proof (scan_none st) as Hnone. revert Hnone. forget_scan st a Ha. intros Hnone.
    destruct (before_least a) as [c|] eqn:Hc.
    + left.
      assert (Hd : disk (state_of (bget_evict a p ticks d b st)) = disk st).
      { destruct (scan_inv_candidate _ _ _ _ Ha Hc) as (_ & _ & s & Hn & _).
        rewrite (bget_evict_claim _ _ _ _ _ _ _ _ Hc Hn), state_of_mk.
        match goal with |- context [acquiresleep p s ?x] =>
          destruct (acquiresleep_frame p s x 0%nat) as (_&_&_&_&_&_&_&->&_) end.
        by destruct (negb _). }
      destruct (bget_evict_spec a p ticks d b st c Ha Hp Hc)
        as (s & Hv & Hres & Hdv & Hb & Hva & Hrc & _ & Hin & _).
      exists s. unfold victim_of in Hv. rewrite Hc in Hv.
      split; [destruct Hres as [(?&?&?)|(?&?)]; [left | right]; done|].
      split; [by apply (cursor_next_in_pool st c)|].
      split; [by apply has_key_true|]. done.
    + right. rewrite (bget_evict_panic _ _ _ _ _ _ Hc).
      repeat split. by apply referenced_below_all, Hnone.
Qed.

(** X3.  In a state whose chains hold slots of the pool, a [bget] that
    runs as one step -- no other processor changes a count between its
    first walk and the end of its scan -- ends in one of two ways.
    Either it settles on a slot that carries the requested key and
    stands in the chain of the key's bucket -- it returns the slot with
    the sleep lock held by the caller when the lock was free, and is
    suspended on the lock otherwise; the disk is not touched, and a
    slot taken over on a miss has [valid] 0 and count 1.  Or it stops
    with [panic("bget: no buffers")], and this happens only when the
    key is not cached and no slot of any chain is free; the state is
    then unchanged.  It never follows a null [before_least->next]. *)
Theorem bget_outcome p ticks d b st :
  in_pool st = true ->
  let r := result_of (bget p ticks d b st) in
  let st' := state_of (bget p ticks d b st) in
  (exists s,
     (lock (slot st s) = None /\ r = Ret s /\ lock (slot st' s) = Some p \/
      lock (slot st s) <> None /\ r = Sleep s) /\
     (s < length (bufs st))%nat /\
     has_key d b (slot st' s) = true /\
     s ∈ chain st' (BUFMAP_HASH d b) /\
     (find_cached (bufs st) d b (chain st (BUFMAP_HASH d b)) = None ->
      valid (slot st' s) = 0 /\ refcnt (slot st' s) = 1) /\
     disk st' = disk st) \/
  (r = Abort "bget: no buffers" /\ st' = st /\
   find_cached (bufs st) d b (chain st (BUFMAP_HASH d b)) = None /\
   all_referenced st = true).
Proof.
  intros Hp. cbv zeta. rewrite result_of_bget, state_of_bget.
  by apply bget_slow_outcome.
Qed.

Lemma bget_outcome_witness :
  let st := run [Bget 7%nat 5 1 5] (binit 30) in
  let r := result_of (bget 8%nat 9 1 6 st) in
  let st' := state_of (bget 8%nat 9 1 6 st) in
  (exists s,
     (lock (slot st s) = None /\ r = Ret s /\ lock (slot st' s) = Some 8%nat \/
      lock (slot st s) <> None /\ r = Sleep s) /\
     (s < length (bufs st))%nat /\
     has_key 1 6 (slot st' s) = true /\
     s ∈ chain st' (BUFMAP_HASH 1 6) /\
     (find_cached (bufs st) 1 6 (chain st (BUFMAP_HASH 1 6)) = None ->
      valid (slot st' s) = 0 /\ refcnt (slot st' s) = 1) /\
     disk st' = disk st) \/
  (r = Abort "bget: no buffers" /\ st' = st /\
   find_cached (bufs st) 1 6 (chain st (BUFMAP_HASH 1 6)) = None /\
   all_referenced st = true).
Proof.
  apply (bget_outcome 8%nat 9 1 6 (run [Bget 7%nat 5 1 5] (binit 30))).
  vm_compute. reflexivity.
Defined.

(** The panic is tied to a pool without a free slot only for a scan
    that runs as one step.  The scan does not go back to a bucket it
    has left: with another processor
    releasing a slot of a bucket already walked and taking the free
    slot of a bucket not yet walked, the scan ends without a candidate
    and the lookup panics, although one slot or more was free all the
    time.  Two slots, slot 1 in bucket 0 and slot 0 in bucket 1: bucket
    0 is walked while slot 1 is referenced and slot 0 is free; then
    slot 1 is released and slot 0 pinned, and the other buckets are
    walked. *)
Lemma panic_beside_a_free_slot :
  let st0 := run [Bget 7%nat 5 1 5; Bget 7%nat 5 1 6] (binit 2) in
  let stA := exec st0 (Brelse 7%nat 6 0) in
  let stM := exec stA (Brelse 7%nat 7 1) in
  let stB := exec stM (Bpin 0) in
  all_referenced stA = false /\ all_referenced stM = false /\
  all_referenced stB = false /\
  find_cached (bufs stB) 1 7 (chain stB (BUFMAP_HASH 1 7)) = None /\
  exists a,
    scan_with NBUCKET stB a /\
    result_of (bget_evict a 8%nat 9 1 7 stB) = Abort "bget: no buffers".
Proof.
  cbv zeta.
  split; [vm_compute; reflexivity|]. split; [vm_compute; reflexivity|].
  split; [vm_compute; reflexivity|]. split; [vm_compute; reflexivity|].
  set (stA := exec (run [Bget 7%nat 5 1 5; Bget 7%nat 5 1 6] (binit 2))
                (Brelse 7%nat 6 0)).
  set (stB := exec (exec stA (Brelse 7%nat 7 1)) (Bpin 0)).
  assert (Hrefl : forall h st, interference h st st) by (by repeat split).
  assert (HAB : interference None stA stB).
  { split; [vm_compute; reflexivity|]. split; [vm_compute; reflexivity|].
    split; [|done].
    intros [|[|s]]; vm_compute; split; reflexivity. }
  assert (H1 : scan_with 1 stA (scan_bucket stA scan_start 0))
    by (apply (scan_with_round 0 stA scan_start stA);
        [apply scan_with_start | apply Hrefl]).
  assert (H2 : scan_with 2 stB (scan_bucket stB (scan_bucket stA scan_start 0) 1))
    by (apply (scan_with_round 1 stA _ stB); [exact H1 | exact HAB]).
  eexists. split.
  - do 11 (eapply scan_with_round; [|apply Hrefl]). exact H2.
  - vm_compute. reflexivity.
Qed.

(** ** The fast path *)

Lemma bget_hit p ticks d b st s :
  find_cached (bufs st) d b (chain st (BUFMAP_HASH d b)) = Some s ->
  bget p ticks d b st =
    (fst (acquiresleep p s (upd s (take_ref ticks) st)),
     snd (acquiresleep p s (upd s (take_ref ticks) st)),
     [Acquire (BucketLock (BUFMAP_HASH d b)); Walk (BUFMAP_HASH d b);
      Release (BucketLock (BUFMAP_HASH d b)); AcquireSleep s]).
Proof.
  intros Hf. unfold bget, bget_fast. rewrite Hf.
  by destruct (acquiresleep p s (upd s (take_ref ticks) st)).
Qed.

(** X4.  A lookup of a cached key is served by the fast path: the only
    spin lock it takes is the lock of the key's bucket, under which the
    chain is walked; [bcache.lock] is not touched and nothing is
    evicted.  The count of the slot found goes up by one modulo 2^32,
    its time stamp becomes the current tick; its key, [valid] and
    content, the chains, the disk and every other slot stay as they
    are. *)
Theorem bget_hit_fast_path p ticks d b st s :
  in_pool st = true ->
  find_cached (bufs st) d b (chain st (BUFMAP_HASH d b)) = Some s ->
  let key := BUFMAP_HASH d b in
  let st' := state_of (bget p ticks d b st) in
  let tr := trace_of (bget p ticks d b st) in
  tr = [Acquire (BucketLock key); Walk key; Release (BucketLock key);
        AcquireSleep s] /\
  acquired tr = [BucketLock key] /\
  walks_locked [] tr = true /\
  held tr = [] /\
  (result_of (bget p ticks d b st) = Ret s \/
   result_of (bget p ticks d b st) = Sleep s) /\
  refcnt (slot st' s) = wrap (refcnt (slot st s) + 1) /\
  timestamp (slot st' s) = ticks /\
  dev (slot st' s) = dev (slot st s) /\
  blockno (slot st' s) = blockno (slot st s) /\
  valid (slot st' s) = valid (slot st s) /\
  data (slot st' s) = data (slot st s) /\
  buckets st' = buckets st /\ disk st' = disk st /\
  (forall s', s' <> s -> slot st' s' = slot st s').
Proof.
  intros Hp Hf key st' tr. subst st' tr.
  rewrite (bget_hit _ _ _ _ _ _ Hf), state_of_mk.
  unfold trace_of, result_of. cbn [fst snd]. fold key.
  destruct (find_cached_some _ _ _ _ _ Hf) as [Hin _].
  pose proof (in_pool_chain _ _ _ Hp Hin) as Hs.
  set (st1 := upd s (take_ref ticks) st).
  assert (Hslot1 : slot st1 s = take_ref ticks (slot st s))
    by (subst st1; by rewrite slot_upd_eq).
  destruct (acquiresleep_frame p s st1 s)
    as (Hv & Hd & Hb & Hrc & Hts & Hda & Hbk & Hdk & _).
  rewrite Hslot1 in Hv, Hd, Hb, Hrc, Hts, Hda.
  simpl in Hv, Hd, Hb, Hrc, Hts, Hda.
  split; [done|]. split; [done|].
  split; [generalize key; intros k; simpl; by rewrite Nat.eqb_refl|].
  split; [generalize key; intros k; unfold held; simpl;
          by rewrite Nat.eqb_refl|].
  split.
  { destruct (acquiresleep_cases p s st1) as [[_ E]|[_ E]]; rewrite E;
      [by left | by right]. }
  repeat (split; [done|]).
  intros s' Hne. rewrite slot_acquiresleep_ne by done.
  subst st1. by rewrite slot_upd_ne.
Qed.

Lemma bget_hit_fast_path_witness :
  let st := run [Bget 7%nat 5 1 5; Brelse 7%nat 6 29] (binit 30) in
  trace_of (bget 8%nat 9 1 5 st) =
    [Acquire (BucketLock 0); Walk 0; Release (BucketLock 0); AcquireSleep 29] /\
  refcnt (slot (state_of (bget 8%nat 9 1 5 st)) 29) = 1 /\
  timestamp (slot (state_of (bget 8%nat 9 1 5 st)) 29) = 9.
Proof.
  cbv zeta.
  destruct (bget_hit_fast_path 8%nat 9 1 5
              (run [Bget 7%nat 5 1 5; Brelse 7%nat 6 29] (binit 30)) 29%nat)
    as (Ht & _ & _ & _ & _ & Hr & Hts & _); [vm_compute; reflexivity ..|].
  split; [exact Ht|]. split; [|exact Hts].
  rewrite Hr. vm_compute. reflexivity.
Defined.

(** ** brelse *)

(** X6.  [brelse] by a process that does not hold the sleep lock of the
    slot stops the kernel with [panic("brelse")] and changes nothing.
    By the holder it returns: the sleep lock is released first, then
    the count is decremented, modulo 2^32, under the lock of the bucket
    of the slot's key, and the time stamp becomes the current tick when
    the count has reached 0 and stays as it is otherwise; the sleep lock
    of the slot is free afterwards, and its key, [valid] and content,
    the chains, the disk and every other slot are as before. *)
Theorem brelse_frame p ticks s st :
  (s < length (bufs st))%nat ->
  (holdingsleep p (slot st s) = false ->
   brelse p ticks s st = (Abort "brelse", st, [Panic "brelse"])) /\
  (holdingsleep p (slot st s) = true ->
   let key := BUFMAP_HASH (dev (slot st s)) (blockno (slot st s)) in
   let st' := state_of (brelse p ticks s st) in
   result_of (brelse p ticks s st) = Ret tt /\
   trace_of (brelse p ticks s st) =
     [ReleaseSleep s; Acquire (BucketLock key); Release (BucketLock key)] /\
   held (trace_of (brelse p ticks s st)) = [] /\
   refcnt (slot st' s) = wrap (refcnt (slot st s) - 1) /\
   timestamp (slot st' s) =
     (if wrap (refcnt (slot st s) - 1) =? 0 then ticks
      else timestamp (slot st s)) /\
   lock (slot st' s) = None /\
   dev (slot st' s) = dev (slot st s) /\
   blockno (slot st' s) = blockno (slot st s) /\
   valid (slot st' s) = valid (slot st s) /\
   data (slot st' s) = data (slot st s) /\
   buckets st' = buckets st /\ disk st' = disk st /\
   (forall s', s' <> s -> slot st' s' = slot st s')).
Proof.
  intros Hs. split; intros Hh.
  - unfold brelse. by rewrite Hh.
  - cbv zeta. rewrite state_of_brelse by done.
    split; [unfold brelse; by rewrite Hh|].
    split; [unfold brelse; by rewrite Hh|].
    split.
    { unfold brelse. rewrite Hh. unfold trace_of. cbn [negb snd].
      generalize (BUFMAP_HASH (dev (slot st s)) (blockno (slot st s))).
      intros key. unfold held. simpl. by rewrite Nat.eqb_refl. }
    unfold releasesleep.
    rewrite !slot_upd_eq by (by rewrite ?length_bufs_upd).
    unfold drop_ref. cbn [refcnt set_lock].
    repeat (split; [first [by destruct (_ =? 0) | done]|]).
    intros s' Hne. by rewrite !slot_upd_ne.
Qed.

Lemma brelse_frame_witness :
  let st := run [Bget 7%nat 5 1 5; Bpin 29] (binit 30) in
  refcnt (slot st 29) = 2 /\ timestamp (slot st 29) = 5 /\
  brelse 8%nat 9 29%nat st = (Abort "brelse", st, [Panic "brelse"]) /\
  result_of (brelse 7%nat 9 29%nat st) = Ret tt /\
  refcnt (slot (state_of (brelse 7%nat 9 29%nat st)) 29) = 1 /\
  timestamp (slot (state_of (brelse 7%nat 9 29%nat st)) 29) = 5 /\
  lock (slot (state_of (brelse 7%nat 9 29%nat st)) 29) = None.
Proof.
  cbv zeta. split; [vm_compute; reflexivity|].
  split; [vm_compute; reflexivity|].
  destruct (brelse_frame 8%nat 9 29%nat
              (run [Bget 7%nat 5 1 5; Bpin 29] (binit 30)))
    as [Hpanic _]; [vm_compute; lia|].
  destruct (brelse_frame 7%nat 9 29%nat
              (run [Bget 7%nat 5 1 5; Bpin 29] (binit 30)))
    as [_ Hok]; [vm_compute; lia|].
  split; [apply Hpanic; vm_compute; reflexivity|].
  destruct Hok as (Hr & _ & _ & Hc & Ht & Hl & _); [vm_compute; reflexivity|].
  split; [exact Hr|].
  split; [rewrite Hc; vm_compute; reflexivity|].
  split; [rewrite Ht; vm_compute; reflexivity | exact Hl].
Defined.

(** ** bpin and bunpin *)

Lemma upd_upd_at s f g st :
  f (g (slot st s)) = slot st s -> upd s f (upd s g st) = st.
Proof.
  intros H. unfold upd. cbn [bufs buckets disk].
  rewrite list_alter_alter_eq.
  assert (E : alter (f ∘ g) s (bufs st) = bufs st).
  { apply list_eq. intros i. destruct (decide (s = i)) as [->|Hne].
    - rewrite list_lookup_alter_eq. unfold slot in H.
      rewrite list_lookup_total_alt in H.
      destruct (bufs st !! i) as [x|] eqn:Hx; [|done].
      simpl in *. by rewrite H.
    - by rewrite list_lookup_alter_ne. }
  rewrite E. by destruct st.
Qed.

(** X7.  [bunpin] undoes [bpin], and [bpin] undoes [bunpin], whenever
    the increment, respectively the decrement, does not wrap: the state
    of the cache after the pair is the state before it. *)
Theorem bpin_bunpin_cancel s st :
  (0 <= refcnt (slot st s) < 2 ^ 32 - 1 ->
   state_of (bunpin s (state_of (bpin s st))) = st) /\
  (0 < refcnt (slot st s) < 2 ^ 32 ->
   state_of (bpin s (state_of (bunpin s st))) = st).
Proof.
  unfold bpin, bunpin. rewrite !state_of_mk. split; intros Hr.
  - apply upd_upd_at. cbn [refcnt set_refcnt]. unfold wrap.
    rewrite (Z.mod_small (refcnt (slot st s) + 1)) by lia.
    replace (refcnt (slot st s) + 1 - 1) with (refcnt (slot st s)) by lia.
    rewrite Z.mod_small by lia. by destruct (slot st s).
  - apply upd_upd_at. cbn [refcnt set_refcnt]. unfold wrap.
    rewrite (Z.mod_small (refcnt (slot st s) - 1)) by lia.
    replace (refcnt (slot st s) - 1 + 1) with (refcnt (slot st s)) by lia.
    rewrite Z.mod_small by lia. by destruct (slot st s).
Qed.

Lemma bpin_bunpin_cancel_witness :
  let st := run [Bget 7%nat 5 1 5] (binit 30) in
  state_of (bunpin 29 (state_of (bpin 29 st))) = st /\
  state_of (bpin 29 (state_of (bunpin 29 st))) = st.
Proof.
  cbv zeta.
  destruct (bpin_bunpin_cancel 29 (run [Bget 7%nat 5 1 5] (binit 30)))
    as [H1 H2].
  split; [apply H1 | apply H2]; vm_compute; split; congruence.
Defined.

(** X8.  A pinned slot is not evicted: after [bpin] of a slot (the
    increment not wrapping) its count is one more than before, and
    through every sequence of lookups of other keys -- with the
    evictions they cause -- and of releases, pins and unpins of other
    slots, the slot keeps its key and that count and is never the
    victim of the eviction scan. *)
Theorem pinned_slot_survives s st cs :
  (s < length (bufs st))%nat ->
  0 <= refcnt (slot st s) < 2 ^ 32 - 1 ->
  forallb (avoids (dev (slot st s)) (blockno (slot st s)) s) cs = true ->
  let st' := run cs (state_of (bpin s st)) in
  dev (slot st' s) = dev (slot st s) /\
  blockno (slot st' s) = blockno (slot st s) /\
  refcnt (slot st' s) = refcnt (slot st s) + 1 /\
  victim (state_of (bpin s st)) <> Some s /\
  victim st' <> Some s.
Proof.
  intros Hs Hr Hcs st'.
  assert (Hp : pinned_at (dev (slot st s)) (blockno (slot st s))
                 (refcnt (slot st s) + 1) s (state_of (bpin s st))).
  { unfold bpin. rewrite state_of_mk. unfold pinned_at.
    rewrite length_bufs_upd, slot_upd_eq by done. cbn [dev blockno refcnt set_refcnt].
    unfold wrap. rewrite Z.mod_small by lia. done. }
  assert (Hne : refcnt (slot st s) + 1 <> 0) by lia.
  pose proof (run_avoids _ _ _ _ cs _ Hne Hp Hcs) as Hp'. fold st' in Hp'.
  pose proof Hp' as (_ & Hd & Hb & Hc).
  split; [done|]. split; [done|]. split; [done|].
  split; [exact (pinned_not_victim _ _ _ _ _ Hne Hp)
         | exact (pinned_not_victim _ _ _ _ _ Hne Hp')].
Qed.

Lemma pinned_slot_survives_witness :
  let cs := [Bread 7%nat 5 1 5; Brelse 7%nat 6 28; Bget 8%nat 7 1 18;
             Bunpin 28; Bget 9%nat 8 2 3] in
  let st' := run cs (state_of (bpin 29 (binit 30))) in
  dev (slot st' 29) = 0 /\ blockno (slot st' 29) = 0 /\
  refcnt (slot st' 29) = 1 /\ victim st' <> Some 29%nat.
Proof.
  cbv zeta.
  destruct (pinned_slot_survives 29 (binit 30)
              [Bread 7%nat 5 1 5; Brelse 7%nat 6 28; Bget 8%nat 7 1 18;
               Bunpin 28; Bget 9%nat 8 2 3])
    as (Hd & Hb & Hc & _ & Hv).
  - vm_compute. lia.
  - vm_compute. split; congruence.
  - vm_compute. reflexivity.
  - rewrite Hd, Hb, Hc. repeat split; [vm_compute; reflexivity ..| exact Hv].
Defined.

(** ** bread *)

Lemma result_of_bread p ticks d b st s :
  result_of (bread p ticks d b st) = Ret s ->
  result_of (bget p ticks d b st) = Ret s.
Proof.
  unfold bread. destruct (bget p ticks d b st) as [[r st1] tr].
  destruct r as [s1| |]; [|done|done].
  by destruct (bread_fill s1 st1).
Qed.

Lemma bread_ret p ticks d b st s :
  result_of (bget p ticks d b st) = Ret s ->
  bread p ticks d b st =
    (Ret s, fst (bread_fill s (state_of (bget p ticks d b st))),
     trace_of (bget p ticks d b st) ++
     snd (bread_fill s (state_of (bget p ticks d b st)))).
Proof.
  unfold bread. destruct (bget p ticks d b st) as [[r st1] tr].
  unfold result_of, state_of, trace_of. cbn [fst snd]. intros ->.
  by destruct (bread_fill s st1).
Qed.

Lemma bread_spec p ticks d b st s :
  in_pool st = true ->
  result_of (bread p ticks d b st) = Ret s ->
  let st1 := state_of (bget p ticks d b st) in
  let st' := state_of (bread p ticks d b st) in
  has_key d b (slot st' s) = true /\
  valid (slot st' s) <> 0 /\
  lock (slot st' s) = Some p /\
  buckets st' = buckets st1 /\ disk st' = disk st /\
  (find_cached (bufs st) d b (chain st (BUFMAP_HASH d b)) = None ->
   valid (slot st1 s) = 0) /\
  (valid (slot st1 s) = 0 ->
   valid (slot st' s) = 1 /\
   data (slot st' s) = disk st d b /\
   trace_of (bread p ticks d b st)
     = trace_of (bget p ticks d b st) ++ [DiskRW s false]) /\
  (valid (slot st1 s) <> 0 ->
   st' = st1 /\
   trace_of (bread p ticks d b st) = trace_of (bget p ticks d b st)).
Proof.
  intros Hp Hr. apply result_of_bread in Hr.
  rewrite (bread_ret _ _ _ _ _ _ Hr), state_of_mk. unfold trace_of at 1 3.
  cbn [snd]. fold (trace_of (bget p ticks d b st)).
  pose proof (length_bufs_bget_slow p ticks d b st) as Hlen.
  destruct (bget_slow_outcome p ticks d b st Hp)
    as [(s0 & Hres & Hs & Hk & _ & Hmiss & Hdisk) | (Hr' & _)];
    rewrite <- result_of_bget in *; rewrite <- state_of_bget in *;
    [|congruence].
  assert (s0 = s) as ->
    by (destruct Hres as [(_ & E & _)|(_ & E)]; congruence).
  assert (Hlock : lock (slot (state_of (bget p ticks d b st)) s) = Some p)
    by (destruct Hres as [(_ & _ & E)|(_ & E)]; congruence).
  revert Hlen Hk Hmiss Hdisk Hlock.
  generalize (state_of (bget p ticks d b st)). intros st1.
  generalize (trace_of (bget p ticks d b st)). intros tr.
  intros Hlen Hk Hmiss Hdisk Hlock. cbv zeta.
  apply has_key_true in Hk as [Hd Hb].
  unfold bread_fill. destruct (valid (slot st1 s) =? 0) eqn:Hv; cbn [fst snd].
  - apply Z.eqb_eq in Hv. unfold virtio_disk_rw.
    rewrite !slot_upd_eq by (rewrite ?length_bufs_upd; lia).
    cbn [valid dev blockno lock data set_valid].
    split; [by apply has_key_true|]. split; [done|]. split; [done|].
    split; [done|]. split; [done|]. split; [done|].
    split; [by rewrite Hd, Hb, Hdisk|]. intros; congruence.
  - apply Z.eqb_neq in Hv.
    split; [by apply has_key_true|]. split; [done|]. split; [done|].
    split; [done|]. split; [done|].
    split; [intros Hf; by destruct (Hmiss Hf)|].
    split; [intros; congruence|]. by rewrite app_nil_r.
Qed.


(** ** Lookup and release *)

Lemma wrap_inc_dec r : 0 <= r < 2 ^ 32 - 1 -> wrap (wrap (r + 1) - 1) = r.
Proof.
  intros H. unfold wrap. rewrite (Z.mod_small (r + 1)) by lia.
  replace (r + 1 - 1) with r by lia. apply Z.mod_small. lia.
Qed.

(** X9.  A lookup that finds its key in a slot whose sleep lock is free
    returns the slot; when the caller then releases it, the count of the
    slot is what it was before the lookup (the increment not wrapping),
    the sleep lock is free again, and the time stamp is the tick of the
    release if the count is zero and the tick of the lookup if it is
    not.  Key, [valid] and content of the slot, the chains and every
    other slot are as before the pair. *)
Theorem lookup_release_balanced p t1 t2 d b st s :
  in_pool st = true ->
  find_cached (bufs st) d b (chain st (BUFMAP_HASH d b)) = Some s ->
  lock (slot st s) = None ->
  0 <= refcnt (slot st s) < 2 ^ 32 - 1 ->
  let st1 := state_of (bget p t1 d b st) in
  let st2 := state_of (brelse p t2 s st1) in
  result_of (bget p t1 d b st) = Ret s /\
  result_of (brelse p t2 s st1) = Ret tt /\
  refcnt (slot st2 s) = refcnt (slot st s) /\
  lock (slot st2 s) = None /\
  timestamp (slot st2 s) = (if refcnt (slot st s) =? 0 then t2 else t1) /\
  dev (slot st2 s) = dev (slot st s) /\
  blockno (slot st2 s) = blockno (slot st s) /\
  valid (slot st2 s) = valid (slot st s) /\
  data (slot st2 s) = data (slot st s) /\
  buckets st2 = buckets st /\
  (forall s', s' <> s -> slot st2 s' = slot st s').
Proof.
  intros Hp Hf Hfree Hr.
  destruct (find_cached_some _ _ _ _ _ Hf) as [Hin _].
  pose proof (in_pool_chain _ _ _ Hp Hin) as Hs.
  rewrite (bget_hit _ _ _ _ _ _ Hf), state_of_mk. unfold result_of at 1.
  cbn [fst].
  assert (Hslot : slot (upd s (take_ref t1) st) s = take_ref t1 (slot st s))
    by (by rewrite slot_upd_eq).
  destruct (acquiresleep_cases p s (upd s (take_ref t1) st))
    as [[_ E]|[Hbusy _]]; [|rewrite Hslot in Hbusy; by simpl in Hbusy].
  rewrite E. cbn [fst snd]. cbv zeta.
  set (st1 := upd s (set_lock (Some p)) (upd s (take_ref t1) st)).
  assert (Hslot1 : slot st1 s = set_lock (Some p) (take_ref t1 (slot st s))).
  { subst st1. rewrite slot_upd_eq by (by rewrite length_bufs_upd).
    by rewrite Hslot. }
  assert (Hh : holdingsleep p (slot st1 s) = true).
  { rewrite Hslot1. unfold holdingsleep. simpl. apply Nat.eqb_refl. }
  rewrite state_of_brelse by done.
  split; [done|]. split; [unfold brelse; by rewrite Hh|].
  unfold releasesleep.
  rewrite !slot_upd_eq by (subst st1; by rewrite ?length_bufs_upd).
  rewrite Hslot1. unfold drop_ref.
  cbn [refcnt set_lock take_ref set_timestamp set_refcnt].
  rewrite wrap_inc_dec by done.
  split; [by destruct (_ =? 0)|]. split; [by destruct (_ =? 0)|].
  split; [by destruct (_ =? 0)|]. split; [by destruct (_ =? 0)|].
  split; [by destruct (_ =? 0)|]. split; [by destruct (_ =? 0)|].
  split; [by destruct (_ =? 0)|]. split; [done|].
  intros s' Hne. subst st1. by rewrite !slot_upd_ne.
Qed.

Lemma lookup_release_balanced_witness :
  let st := run [Bget 7%nat 5 1 5; Brelse 7%nat 6 29] (binit 30) in
  let st2 := state_of (brelse 8%nat 9 29%nat (state_of (bget 8%nat 8 1 5 st))) in
  result_of (bget 8%nat 8 1 5 st) = Ret 29%nat /\
  refcnt (slot st2 29) = refcnt (slot st 29) /\
  lock (slot st2 29) = None.
Proof.
  cbv zeta.
  destruct (lookup_release_balanced 8%nat 8 9 1 5
              (run [Bget 7%nat 5 1 5; Brelse 7%nat 6 29] (binit 30)) 29%nat)
    as (Hr & _ & Hc & Hl & _).
  - vm_compute. reflexivity.
  - vm_compute. reflexivity.
  - vm_compute. reflexivity.
  - vm_compute. split; congruence.
  - split; [exact Hr|]. split; [exact Hc | exact Hl].
Defined.

(** ** The choice of the scan, as the code makes it *)

Lemma slot_stamp_nonneg st s :
  stamps_nonneg st = true -> 0 <= timestamp (slot st s).
Proof.
  unfold stamps_nonneg, slot. intros H.
  rewrite list_lookup_total_alt.
  destruct (bufs st !! s) as [x|] eqn:Hx; simpl; [|done].
  rewrite forallb_forall in H. apply Z.leb_le, H.
  apply list_elem_of_In. by apply list_elem_of_lookup_2 in Hx.
Qed.

(** A candidate that stands behind a dummy head is never replaced: the
    time stamp read through it is the head's 0. *)
Lemma scan_chain_head_sticks st i h rest : forall j nf,
  stamps_nonneg st = true ->
  scan_chain st i j rest (Some {| bucket := h; hops := 0 |}, nf)
    = (Some {| bucket := h; hops := 0 |}, nf).
Proof.
  induction rest as [|s rest IH]; intros j nf Hst; [done|].
  cbn [scan_chain fst]. unfold cursor_timestamp at 1. cbn [hops].
  pose proof (slot_stamp_nonneg st s Hst).
  rewrite (proj2 (Z.ltb_ge _ _)) by done. rewrite andb_false_r.
  by apply IH.
Qed.

Lemma scan_bucket_head_sticks st a h n :
  stamps_nonneg st = true ->
  before_least a = Some {| bucket := h; hops := 0 |} ->
  before_least (scan_bucket st a n) = Some {| bucket := h; hops := 0 |}.
Proof.
  intros Hst Ha. rewrite before_least_scan_bucket, Ha.
  by rewrite scan_chain_head_sticks.
Qed.

Lemma scan_upto_referenced_below st n :
  referenced_below st n = true -> before_least (scan_upto st n) = None.
Proof.
  unfold referenced_below. induction n as [|n IH]; [done|].
  rewrite seq_S, forallb_app. cbn [forallb Nat.add].
  intros [Hn [Hc _]%andb_true_iff]%andb_true_iff.
  rewrite scan_upto_S, before_least_scan_bucket, IH by done.
  by rewrite scan_chain_all_referenced.
Qed.

Lemma scan_upto_takes_head st i s rest n :
  stamps_nonneg st = true ->
  referenced_below st i = true ->
  chain st i = s :: rest ->
  refcnt (slot st s) = 0 ->
  (i < n)%nat ->
  before_least (scan_upto st n) = Some {| bucket := i; hops := 0 |}.
Proof.
  intros Hst Hbelow Hc Hr. induction n as [|n IH]; [lia|]. intros Hlt.
  rewrite scan_upto_S.
  destruct (decide (i = n)) as [->|Hne].
  - rewrite before_least_scan_bucket, Hc.
    rewrite (scan_upto_referenced_below _ _ Hbelow).
    cbn [scan_chain fst]. rewrite Hr. cbn [Z.eqb andb].
    by rewrite scan_chain_head_sticks.
  - apply scan_bucket_head_sticks; [done|]. apply IH. lia.
Qed.

Lemma scan_takes_head st i s rest :
  stamps_nonneg st = true ->
  referenced_below st i = true ->
  chain st i = s :: rest ->
  refcnt (slot st s) = 0 ->
  (i < NBUCKET)%nat ->
  before_least (scan st) = Some {| bucket := i; hops := 0 |}.
Proof. exact (scan_upto_takes_head st i s rest NBUCKET). Qed.

(** X12.  As the scan is written (line 115 reads the time stamp of the
    node in front of the candidate), when the first free buffer it
    meets is the head of its chain -- the buckets before are without a
    free buffer -- that buffer is the one evicted, whatever the time
    stamps of the free buffers met later: no unsigned time stamp is
    below the 0 of the dummy head. *)
Theorem scan_takes_chain_head st i s rest :
  stamps_nonneg st = true ->
  (i < NBUCKET)%nat ->
  referenced_below st i = true ->
  chain st i = s :: rest ->
  refcnt (slot st s) = 0 ->
  before_least (scan st) = Some {| bucket := i; hops := 0 |} /\
  victim st = Some s.
Proof.
  intros Hst Hi Hbelow Hc Hr.
  pose proof (scan_takes_head st i s rest Hst Hbelow Hc Hr Hi) as H.
  split; [done|]. unfold victim, victim_of. rewrite H.
  unfold cursor_next. cbn [bucket hops]. by rewrite Hc.
Qed.

Lemma scan_takes_chain_head_witness :
  let st := run [Bget 7%nat 5 1 5; Brelse 7%nat 9 29] (binit 30) in
  timestamp (slot st 29) = 9 /\ refcnt (slot st 29) = 0 /\
  timestamp (slot st 28) = 0 /\ refcnt (slot st 28) = 0 /\
  victim st = Some 29%nat.
Proof.
  cbv zeta.
  destruct (scan_takes_chain_head
              (run [Bget 7%nat 5 1 5; Brelse 7%nat 9 29] (binit 30))
              0%nat 29%nat (rev (seq 0 29)))
    as [_ Hv]; [vm_compute; (reflexivity || lia) ..|].
  split; [vm_compute; reflexivity|]. split; [vm_compute; reflexivity|].
  split; [vm_compute; reflexivity|]. split; [vm_compute; reflexivity|].
  exact Hv.
Defined.

(** ** The slot a lookup settles on *)

Lemma find_cached_ext bs bs' d b c :
  (forall s, s ∈ c -> has_key d b (bs' !!! s) = has_key d b (bs !!! s)) ->
  find_cached bs' d b c = find_cached bs d b c.
Proof.
  unfold find_cached. induction c as [|s c IH]; intros H; [done|].
  cbn [find]. rewrite (H s) by left.
  destruct (has_key d b (bs !!! s)); [done|].
  apply IH. intros s' Hs'. apply H. by right.
Qed.

Lemma find_cached_transfer st st' d b i :
  buckets st' = buckets st ->
  (forall s, dev (slot st' s) = dev (slot st s) /\
             blockno (slot st' s) = blockno (slot st s)) ->
  find_cached (bufs st') d b (chain st' i) = find_cached (bufs st) d b (chain st i).
Proof.
  intros Hb Hk. unfold chain. rewrite Hb. apply find_cached_ext.
  intros s _. unfold has_key. destruct (Hk s) as [Hd Hbn].
  unfold slot in Hd, Hbn. by rewrite Hd, Hbn.
Qed.

(** The slot on which a lookup settles -- returned, or waited for -- is
    the one the next walk of the bucket finds. *)
Lemma evict_settles a p ticks d b st s :
  scan_inv st NBUCKET a ->
  cache_inv st ->
  find_cached (bufs st) d b (chain st (BUFMAP_HASH d b)) = None ->
  result_of (bget_evict a p ticks d b st) = Ret s \/
  result_of (bget_evict a p ticks d b st) = Sleep s ->
  let st1 := state_of (bget_evict a p ticks d b st) in
  (s < length (bufs st1))%nat /\
  find_cached (bufs st1) d b (chain st1 (BUFMAP_HASH d b)) = Some s.
Proof.
  intros Ha Hinv Hf Hr.
  pose proof (cache_inv_bget_evict a p ticks d b st Ha Hinv Hf) as Hinv1.
  destruct (before_least a) as [c|] eqn:Hc;
    [|rewrite (bget_evict_panic _ _ _ _ _ _ Hc) in Hr; by destruct Hr].
  pose proof Hinv as (Hp & _).
  destruct (bget_evict_spec a p ticks d b st c Ha Hp Hc)
    as (s0 & Hv & Hres & Hd & Hb & _ & _ & _ & Hin & _ & _ & Hoth & Hlen).
  unfold victim_of in Hv. rewrite Hc in Hv.
  pose proof (cursor_next_in_pool _ _ _ Hp Hv) as Hs.
  assert (s0 = s) as ->
    by (destruct Hres as [(E & _)|(E & _)]; destruct Hr; congruence).
  clear Hres Hr. revert Hinv1 Hd Hb Hin Hoth Hlen.
  generalize (state_of (bget_evict a p ticks d b st)). intros st1.
  cbv zeta. intros Hinv1 Hd Hb Hin Hoth Hlen.
  assert (Hk : has_key d b (slot st1 s) = true) by (by apply has_key_true).
  split; [lia|].
  destruct (find_cached (bufs st1) d b (chain st1 (BUFMAP_HASH d b)))
    as [s'|] eqn:Hf1.
  - apply find_cached_some in Hf1 as [Hin' Hk']. f_equal.
    destruct (decide (s' = s)) as [|Hne]; [done|]. exfalso.
    destruct Hinv1 as (Hp1 & _).
    pose proof (in_pool_chain _ _ _ Hp1 Hin') as Hs'. rewrite Hlen in Hs'.
    fold (slot st1 s') in Hk'. rewrite Hoth in Hk' by done.
    by rewrite (uncached_nowhere st d b s' Hinv Hf Hs') in Hk'.
  - pose proof (find_cached_none _ _ _ _ s Hf1 Hin) as Hn.
    unfold slot in Hk. congruence.
Qed.

Lemma bget_slow_settles p ticks d b st s :
  cache_inv st ->
  result_of (bget_slow p ticks d b st) = Ret s \/
  result_of (bget_slow p ticks d b st) = Sleep s ->
  let st1 := state_of (bget_slow p ticks d b st) in
  (s < length (bufs st1))%nat /\
  find_cached (bufs st1) d b (chain st1 (BUFMAP_HASH d b)) = Some s.
Proof.
  intros Hinv.
  destruct (find_cached (bufs st) d b (chain st (BUFMAP_HASH d b)))
    as [s0|] eqn:Hf.
  - rewrite (bget_slow_hit _ _ _ _ _ _ Hf), state_of_mk.
    unfold result_of. cbn [fst]. intros Hr. cbv zeta.
    assert (s0 = s) as ->.
    { destruct (acquiresleep_cases p s0 (upd s0 (take_ref ticks) st))
        as [[_ E]|[_ E]]; rewrite E in Hr; cbn [fst] in Hr;
        destruct Hr; congruence. }
    split.
    { rewrite length_bufs_acquiresleep, length_bufs_upd.
      destruct Hinv as (Hp & _).
      apply find_cached_some in Hf as [Hin _].
      by apply (in_pool_chain _ _ _ Hp Hin). }
    rewrite <- Hf. apply find_cached_transfer.
    + by destruct (acquiresleep_frame p s (upd s (take_ref ticks) st) 0%nat)
        as (_&_&_&_&_&_&H&_).
    + intros s'. by destruct (hit_frame p ticks s st s') as (? & ? & _).
  - rewrite (bget_slow_miss _ _ _ _ _ Hf).
    forget_scan st a Ha. intros Hr. by apply evict_settles.
Qed.

Lemma bread_keeps_found p ticks d b st s :
  cache_inv st ->
  result_of (bread p ticks d b st) = Ret s ->
  let st1 := state_of (bread p ticks d b st) in
  (s < length (bufs st1))%nat /\
  find_cached (bufs st1) d b (chain st1 (BUFMAP_HASH d b)) = Some s /\
  lock (slot st1 s) = Some p /\
  valid (slot st1 s) <> 0.
Proof.
  intros Hinv Hr. pose proof Hinv as (Hp & _).
  destruct (bread_spec p ticks d b st s Hp Hr) as (_ & Hv & Hl & _).
  pose proof (result_of_bread _ _ _ _ _ _ Hr) as Hrb.
  pose proof (bget_slow_settles p ticks d b st s Hinv) as Hfound.
  rewrite <- result_of_bget, <- state_of_bget in Hfound.
  destruct (Hfound (or_introl Hrb)) as [_ Hfound'].
  clear Hfound. rename Hfound' into Hfound.
  assert (Hs : (s < length (bufs (state_of (bget p ticks d b st))))%nat).
  { rewrite state_of_bget.
    assert (Hinv1 : cache_inv (state_of (bget_slow p ticks d b st)))
      by (by apply cache_inv_bget_slow).
    destruct Hinv1 as (Hp1 & _). rewrite state_of_bget in Hfound.
    apply find_cached_some in Hfound as [Hin _].
    by apply (in_pool_chain _ _ _ Hp1 Hin). }
  revert Hv Hl. cbv zeta.
  rewrite (bread_ret _ _ _ _ _ _ Hrb), state_of_mk.
  revert Hfound Hs. generalize (state_of (bget p ticks d b st)). intros stb.
  intros Hfound Hs Hv Hl.
  destruct (bread_fill_frame s stb 0%nat) as (_ & _ & _ & _ & _ & Hbk & Hlen).
  split; [by rewrite Hlen|]. split; [|done].
  rewrite <- Hfound. apply find_cached_transfer; [done|].
  intros s'. by destruct (bread_fill_frame s stb s') as (? & ? & _).
Qed.

Lemma reread_hit st1 p q t2 t3 d b s :
  (s < length (bufs st1))%nat ->
  find_cached (bufs st1) d b (chain st1 (BUFMAP_HASH d b)) = Some s ->
  lock (slot st1 s) = Some p ->
  valid (slot st1 s) <> 0 ->
  let key := BUFMAP_HASH d b in
  let st2 := state_of (brelse p t2 s st1) in
  result_of (brelse p t2 s st1) = Ret tt /\
  bread q t3 d b st2 = bget q t3 d b st2 /\
  result_of (bread q t3 d b st2) = Ret s /\
  trace_of (bread q t3 d b st2) =
    [Acquire (BucketLock key); Walk key; Release (BucketLock key);
     AcquireSleep s] /\
  data (slot (state_of (bread q t3 d b st2)) s) = data (slot st1 s).
Proof.
  intros Hs Hf Hl Hv key.
  assert (Hh : holdingsleep p (slot st1 s) = true)
    by (unfold holdingsleep; rewrite Hl; apply Nat.eqb_refl).
  rewrite state_of_brelse by done. cbv zeta.
  split; [unfold brelse; by rewrite Hh|].
  set (st2 := upd s (drop_ref t2) (releasesleep s st1)).
  assert (Hlen2 : length (bufs st2) = length (bufs st1))
    by (subst st2; unfold releasesleep; by rewrite !length_bufs_upd).
  assert (Hslot2 : slot st2 s = drop_ref t2 (set_lock None (slot st1 s))).
  { subst st2. unfold releasesleep.
    by rewrite !slot_upd_eq by (by rewrite ?length_bufs_upd). }
  assert (Hf2 : find_cached (bufs st2) d b (chain st2 key) = Some s).
  { rewrite <- Hf. apply find_cached_transfer; [done|].
    intros s'. subst st2. unfold releasesleep.
    destruct (slot_upd s s' (drop_ref t2) (upd s (set_lock None) st1))
      as [E|(-> & _ & E)]; rewrite E; clear E;
      [destruct (slot_upd s s' (set_lock None) st1) as [E|(-> & _ & E)]
      |destruct (slot_upd s s (set_lock None) st1) as [E|(_ & _ & E)]];
      rewrite E; unfold drop_ref; try done; by destruct (_ =? 0). }
  assert (Hbget : bget q t3 d b st2 =
            (Ret s, upd s (set_lock (Some q)) (upd s (take_ref t3) st2),
             [Acquire (BucketLock key); Walk key; Release (BucketLock key);
              AcquireSleep s])).
  { rewrite (bget_hit _ _ _ _ _ _ Hf2). fold key.
    destruct (acquiresleep_cases q s (upd s (take_ref t3) st2))
      as [[_ E]|[Hbusy _]]; [by rewrite E|].
    exfalso. apply Hbusy. rewrite slot_upd_eq by lia. rewrite Hslot2.
    unfold drop_ref. by destruct (_ =? 0). }
  assert (Hslot3 : slot (upd s (set_lock (Some q)) (upd s (take_ref t3) st2)) s
            = set_lock (Some q) (take_ref t3 (slot st2 s))).
  { by rewrite !slot_upd_eq by (rewrite ?length_bufs_upd; lia). }
  assert (Hbread : bread q t3 d b st2 = bget q t3 d b st2).
  { rewrite (bread_ret q t3 d b st2 s) by (by rewrite Hbget).
    rewrite Hbget, state_of_mk. unfold trace_of. cbn [snd].
    unfold bread_fill. rewrite Hslot3, Hslot2.
    assert (E : valid (set_lock (Some q)
                  (take_ref t3 (drop_ref t2 (set_lock None (slot st1 s)))))
                = valid (slot st1 s))
      by (unfold drop_ref; by destruct (_ =? 0)).
    rewrite E. apply Z.eqb_neq in Hv. rewrite Hv. cbn [fst snd].
    by rewrite app_nil_r. }
  split; [done|]. rewrite Hbread, Hbget, state_of_mk.
  split; [done|]. split; [done|].
  rewrite Hslot3, Hslot2. unfold drop_ref. by destruct (_ =? 0).
Qed.

(** ** A referenced slot stays the one its key is found in *)

(** No slot is given a key while the walk of the key's bucket finds it,
    and a referenced slot is not evicted: the slot found for a key is
    found for it after any call, as long as its count is not 0. *)
Lemma find_change_false (P P' : nat -> bool) (l : list nat) s v :
  List.find P l = Some s -> v <> s -> P' v = false ->
  (forall x, x <> v -> P' x = P x) -> List.find P' l = Some s.
Proof.
  intros Hf Hne Hv Hsame. induction l as [|x l IH]; [done|].
  cbn [List.find] in *. destruct (decide (x = v)) as [->|Hx].
  - rewrite Hv. apply IH. destruct (P v); [congruence | done].
  - rewrite (Hsame x Hx). destruct (P x); [done | by apply IH].
Qed.

Lemma find_delete_false (P : nat -> bool) (l : list nat) : forall j v s,
  List.find P l = Some s -> l !! j = Some v -> P v = false ->
  List.find P (delete j l) = Some s.
Proof.
  induction l as [|x l IH]; intros j v s Hf Hj Hv; [done|].
  destruct j as [|j]; cbn [List.find] in *.
  - injection Hj as ->. simpl. by rewrite Hv in Hf.
  - simpl. cbn [List.find]. destruct (P x); [done|]. by apply (IH j v).
Qed.

Lemma bget_evict_keeps_found a p ticks d' b' st d b s :
  scan_inv st NBUCKET a ->
  in_pool st = true ->
  find_cached (bufs st) d b (chain st (BUFMAP_HASH d b)) = Some s ->
  refcnt (slot st s) <> 0 ->
  (d', b') <> (d, b) ->
  let st' := state_of (bget_evict a p ticks d' b' st) in
  find_cached (bufs st') d b (chain st' (BUFMAP_HASH d b)) = Some s.
Proof.
  intros Ha Hp Hf Hr Hk.
  destruct (before_least a) as [c|] eqn:Hc;
    [|by rewrite (bget_evict_panic _ _ _ _ _ _ Hc)].
  destruct (bget_evict_spec a p ticks d' b' st c Ha Hp Hc)
    as (v & Hv & _ & Hd & Hb & _ & _ & _ & _ & Hsame & Hmove & Hoth & _).
  pose proof (victim_of_free st NBUCKET a v Ha Hv) as Hfree.
  unfold victim_of in Hv. rewrite Hc in Hv. unfold cursor_next in Hv.
  assert (Hne : v <> s) by congruence.
  revert Hd Hb Hsame Hmove Hoth.
  generalize (state_of (bget_evict a p ticks d' b' st)). intros st'.
  cbv zeta. set (key := BUFMAP_HASH d' b'). set (h := BUFMAP_HASH d b).
  intros Hd Hb Hsame Hmove Hoth.
  set (P := fun x : nat => has_key d b (bufs st !!! x)).
  set (P' := fun x : nat => has_key d b (bufs st' !!! x)).
  assert (HPv : P' v = false).
  { subst P'. cbv beta. fold (slot st' v). unfold has_key. rewrite Hd, Hb.
    destruct (d' =? d) eqn:E1; [|done]. destruct (b' =? b) eqn:E2; [|done].
    apply Z.eqb_eq in E1, E2. congruence. }
  assert (HP : forall x, x <> v -> P' x = P x).
  { intros x Hx. subst P P'. cbv beta. fold (slot st' x). fold (slot st x).
    by rewrite Hoth. }
  assert (Hold : List.find P' (chain st h) = Some s)
    by (by apply (find_change_false P P' _ s v)).
  unfold find_cached. fold P'.
  destruct (decide (bucket c = key)) as [E|E].
  - unfold chain in *. by rewrite (Hsame E).
  - destruct (Hmove E) as (Hkc & Hbc & Ho).
    destruct (decide (h = key)) as [->|Hhk].
    + rewrite Hkc. cbn [List.find]. by rewrite HPv.
    + destruct (decide (h = bucket c)) as [->|Hhb].
      * rewrite Hbc. by apply (find_delete_false P' _ _ v).
      * by rewrite Ho.
Qed.

Lemma bget_slow_keeps_found p ticks d' b' st d b s :
  in_pool st = true ->
  find_cached (bufs st) d b (chain st (BUFMAP_HASH d b)) = Some s ->
  refcnt (slot st s) <> 0 ->
  let st' := state_of (bget_slow p ticks d' b' st) in
  find_cached (bufs st') d b (chain st' (BUFMAP_HASH d b)) = Some s.
Proof.
  intros Hp Hf Hr.
  destruct (find_cached (bufs st) d' b' (chain st (BUFMAP_HASH d' b')))
    as [s0|] eqn:Hf'.
  - rewrite (bget_slow_hit _ _ _ _ _ _ Hf'), state_of_mk. cbv zeta.
    rewrite <- Hf. apply find_cached_transfer.
    + by destruct (acquiresleep_frame p s0 (upd s0 (take_ref ticks) st) 0%nat)
        as (_&_&_&_&_&_&H&_).
    + intros x. by destruct (hit_frame p ticks s0 st x) as (? & ? & _).
  - rewrite (bget_slow_miss _ _ _ _ _ Hf').
    forget_scan st a Ha. apply bget_evict_keeps_found; try done.
    intros [= -> ->]. congruence.
Qed.

Lemma exec_keeps_found st c d b s :
  in_pool st = true ->
  find_cached (bufs st) d b (chain st (BUFMAP_HASH d b)) = Some s ->
  refcnt (slot st s) <> 0 ->
  find_cached (bufs (exec st c)) d b (chain (exec st c) (BUFMAP_HASH d b))
    = Some s.
Proof.
  intros Hp Hf Hr.
  destruct c as [p t d' b'|p t d' b'|p t d' b'|p s'|p s'|p s'|p t s'|s'|s'];
    unfold exec.
  - rewrite state_of_bget. by apply bget_slow_keeps_found.
  - by apply bget_slow_keeps_found.
  - rewrite state_of_bread, result_of_bget, state_of_bget.
    pose proof (bget_slow_keeps_found p t d' b' st d b s Hp Hf Hr) as H1.
    cbv zeta in H1.
    destruct (result_of (bget_slow p t d' b' st)) as [s1| |]; [|done|done].
    rewrite <- H1. apply find_cached_transfer.
    + by destruct (bread_fill_frame s1 (state_of (bget_slow p t d' b' st)) 0%nat)
        as (_ & _ & _ & _ & _ & Hb & _).
    + intros x.
      by destruct (bread_fill_frame s1 (state_of (bget_slow p t d' b' st)) x)
        as (? & ? & _).
  - rewrite <- Hf. apply find_cached_transfer.
    + by destruct (acquiresleep_frame p s' st 0%nat) as (_&_&_&_&_&_&H&_).
    + intros x. by destruct (acquiresleep_frame p s' st x) as (_&?&?&_).
  - rewrite <- Hf. apply find_cached_transfer.
    + by destruct (bread_resume_frame p s' st 0%nat) as (_&_&_&_&H&_).
    + intros x. by destruct (bread_resume_frame p s' st x) as (?&?&_).
  - unfold bwrite. destruct (negb (holdingsleep p (slot st s'))); [done|].
    rewrite state_of_mk. rewrite <- Hf. by apply find_cached_transfer.
  - destruct (holdingsleep p (slot st s')) eqn:Hh.
    + rewrite state_of_brelse by done. unfold releasesleep.
      rewrite <- Hf. apply find_cached_transfer; [done|].
      intros x.
      destruct (slot_upd s' x (drop_ref t) (upd s' (set_lock None) st))
        as [E|(-> & _ & E)]; rewrite E; clear E;
        [destruct (slot_upd s' x (set_lock None) st) as [E|(-> & _ & E)]
        |destruct (slot_upd s' s' (set_lock None) st) as [E|(_ & _ & E)]];
        rewrite E; unfold drop_ref; try done; by destruct (_ =? 0).
    + by rewrite state_of_brelse_panic.
  - unfold bpin. rewrite state_of_mk. rewrite <- Hf.
    apply find_cached_transfer; [done|]. intros x.
    destruct (slot_upd s' x (fun y => set_refcnt (wrap (refcnt y + 1)) y) st)
      as [E|(-> & _ & E)]; rewrite E; done.
  - unfold bunpin. rewrite state_of_mk. rewrite <- Hf.
    apply find_cached_transfer; [done|]. intros x.
    destruct (slot_upd s' x (fun y => set_refcnt (wrap (refcnt y - 1)) y) st)
      as [E|(-> & _ & E)]; rewrite E; done.
Qed.

Lemma run_keeps_found cs : forall st d b s,
  cache_inv st ->
  find_cached (bufs st) d b (chain st (BUFMAP_HASH d b)) = Some s ->
  referenced_through s cs st = true ->
  find_cached (bufs (run cs st)) d b (chain (run cs st) (BUFMAP_HASH d b))
    = Some s.
Proof.
  induction cs as [|c cs IH]; intros st d b s Hinv Hf Hr; [done|].
  cbn [referenced_through] in Hr.
  apply andb_true_iff in Hr as [Hr Hcs].
  apply negb_true_iff, Z.eqb_neq in Hr.
  unfold run. cbn [fold_left]. fold (run cs (exec st c)).
  apply IH; [by apply cache_inv_exec | | done].
  apply exec_keeps_found; [by destruct Hinv | done | done].
Qed.


(** ** bread, returning at once or after a wait *)

(** A suspended [bread] has done what its [bget] did, and no more. *)
Lemma bread_sleep p ticks d b st s :
  result_of (bread p ticks d b st) = Sleep s ->
  result_of (bget p ticks d b st) = Sleep s /\
  bread p ticks d b st = bget p ticks d b st.
Proof.
  unfold bread. destruct (bget p ticks d b st) as [[r st1] tr].
  destruct r as [s1| |]; [|done|done].
  by destruct (bread_fill s1 st1).
Qed.

Lemma bread_full_ret p ticks d b cs st s :
  result_of (bread p ticks d b st) = Ret s ->
  bread_full p ticks d b cs st = bread p ticks d b st.
Proof.
  unfold bread_full. destruct (bread p ticks d b st) as [[r st1] tr].
  unfold result_of. cbn [fst]. by intros ->.
Qed.

Lemma bread_full_sleep p ticks d b cs st s :
  result_of (bread p ticks d b st) = Sleep s ->
  let st1 := state_of (bget p ticks d b st) in
  bread_full p ticks d b cs st =
    (result_of (bread_resume p s (run cs st1)),
     state_of (bread_resume p s (run cs st1)),
     trace_of (bget p ticks d b st) ++ trace_of (bread_resume p s (run cs st1))).
Proof.
  intros Hr. destruct (bread_sleep _ _ _ _ _ _ Hr) as [_ E].
  unfold bread_full. rewrite E in Hr |- *.
  destruct (bget p ticks d b st) as [[r st1] tr].
  unfold result_of, state_of, trace_of in *. cbn [fst snd] in *. subst r.
  by destruct (bread_resume p s (run cs st1)) as [[r2 st2] tr2].
Qed.

Lemma bread_full_cases p ticks d b cs st s :
  result_of (bread_full p ticks d b cs st) = Ret s ->
  result_of (bread p ticks d b st) = Ret s \/
  result_of (bread p ticks d b st) = Sleep s /\
  result_of (bread_resume p s (run cs (state_of (bget p ticks d b st)))) = Ret s.
Proof.
  destruct (result_of (bread p ticks d b st)) as [s1|s1|m] eqn:Hr.
  - rewrite (bread_full_ret _ _ _ _ _ _ _ Hr), Hr. intros [= ->]. by left.
  - rewrite (bread_full_sleep _ _ _ _ _ _ _ Hr). unfold result_of at 1.
    cbn [fst]. intros Hr2. right.
    assert (s1 = s) as ->; [|done].
    rewrite bread_resume_eq in Hr2.
    destruct (acquiresleep_cases p s1 (run cs (state_of (bget p ticks d b st))))
      as [[_ E]|[_ E]]; rewrite E in Hr2; unfold result_of in Hr2;
      cbn [fst] in Hr2; congruence.
  - unfold bread_full. destruct (bread p ticks d b st) as [[r st1] tr].
    unfold result_of in *. cbn [fst] in *. subst r. done.
Qed.

(** A [bread] that is suspended and woken is the call [Bread], the
    calls run in between, and the call [BreadWake]. *)
Lemma bread_full_run p ticks d b cs st s :
  result_of (bread p ticks d b st) = Sleep s ->
  state_of (bread_full p ticks d b cs st)
    = run (Bread p ticks d b :: cs ++ [BreadWake p s]) st.
Proof.
  intros Hr. rewrite (bread_full_sleep _ _ _ _ _ _ _ Hr), state_of_mk.
  destruct (bread_sleep _ _ _ _ _ _ Hr) as [_ E].
  unfold run. cbn [fold_left]. rewrite fold_left_app. cbn [fold_left exec].
  by rewrite E.
Qed.

(** What is left of a suspended [bread], when it gets the lock. *)
Lemma bread_resume_spec p s st s' :
  (s < length (bufs st))%nat ->
  result_of (bread_resume p s st) = Ret s' ->
  let st' := state_of (bread_resume p s st) in
  s' = s /\
  lock (slot st s) = None /\
  lock (slot st' s) = Some p /\
  valid (slot st' s) <> 0 /\
  disk st' = disk st /\
  (valid (slot st s) = 0 ->
   valid (slot st' s) = 1 /\
   data (slot st' s) = disk st (dev (slot st s)) (blockno (slot st s)) /\
   trace_of (bread_resume p s st) = [DiskRW s false]) /\
  (valid (slot st s) <> 0 ->
   st' = upd s (set_lock (Some p)) st /\
   trace_of (bread_resume p s st) = []).
Proof.
  intros Hs. rewrite bread_resume_eq.
  destruct (acquiresleep_cases p s st) as [[Hfree E]|[_ E]]; rewrite E;
    cbn [fst snd]; [|done].
  unfold result_of, trace_of. rewrite state_of_mk. cbn [fst snd].
  intros [= <-]. cbv zeta.
  set (st1 := upd s (set_lock (Some p)) st).
  assert (Hslot1 : slot st1 s = set_lock (Some p) (slot st s))
    by (subst st1; by rewrite slot_upd_eq).
  assert (Hlen1 : length (bufs st1) = length (bufs st))
    by (subst st1; apply length_bufs_upd).
  split; [done|]. split; [done|].
  unfold bread_fill. rewrite Hslot1. cbn [valid set_lock].
  destruct (valid (slot st s) =? 0) eqn:Hv; cbn [fst snd].
  - apply Z.eqb_eq in Hv. unfold virtio_disk_rw.
    rewrite !slot_upd_eq by (rewrite ?length_bufs_upd; lia).
    rewrite Hslot1. cbn [valid dev blockno lock data set_valid set_lock].
    split; [done|]. split; [done|]. split; [done|].
    split; [done|]. intros; congruence.
  - apply Z.eqb_neq in Hv. rewrite Hslot1. cbn [lock valid set_lock].
    split; [done|]. split; [done|]. split; [done|].
    split; [intros; congruence | done].
Qed.

(** The state in which a [bread] that returns has left its slot. *)
Lemma bread_full_found nbuf cs0 p ticks d b cs s :
  let st := run cs0 (binit nbuf) in
  result_of (bread_full p ticks d b cs st) = Ret s ->
  (result_of (bread p ticks d b st) = Sleep s ->
   referenced_through s cs (state_of (bread p ticks d b st)) = true) ->
  let st1 := state_of (bread_full p ticks d b cs st) in
  cache_inv st1 /\
  (s < length (bufs st1))%nat /\
  find_cached (bufs st1) d b (chain st1 (BUFMAP_HASH d b)) = Some s /\
  lock (slot st1 s) = Some p /\
  valid (slot st1 s) <> 0.
Proof.
  intros st Hr Href.
  assert (Hinv : cache_inv st) by apply cache_inv_run, cache_inv_binit.
  destruct (bread_full_cases _ _ _ _ _ _ _ Hr) as [Hd|[Hsl Hres]].
  - cbv zeta. rewrite (bread_full_ret _ _ _ _ _ _ _ Hd).
    split; [apply (cache_inv_exec st (Bread p ticks d b) Hinv)|].
    by apply bread_keeps_found.
  - specialize (Href Hsl).
    destruct (bread_sleep _ _ _ _ _ _ Hsl) as [Hg E]. rewrite E in Href.
    cbv zeta. rewrite (bread_full_sleep _ _ _ _ _ _ _ Hsl), state_of_mk.
    pose proof (bget_slow_settles p ticks d b st s Hinv) as Hset.
    rewrite <- result_of_bget, <- state_of_bget in Hset.
    destruct (Hset (or_intror Hg)) as [Hs Hf]. clear Hset.
    assert (Hinv1 : cache_inv (state_of (bget p ticks d b st)))
      by apply (cache_inv_exec st (Bget p ticks d b) Hinv).
    pose proof (run_keeps_found cs _ d b s Hinv1 Hf Href) as Hf2.
    pose proof (cache_inv_run cs _ Hinv1) as Hinv2.
    pose proof (length_bufs_run cs (state_of (bget p ticks d b st))) as Hl2.
    revert Hres Hf2 Hinv2 Hl2.
    generalize (run cs (state_of (bget p ticks d b st))). intros st2.
    intros Hres Hf2 Hinv2 Hl2.
    assert (Hs2 : (s < length (bufs st2))%nat) by lia.
    destruct (bread_resume_spec p s st2 s Hs2 Hres)
      as (_ & _ & Hl & Hv & _).
    split; [apply (cache_inv_exec st2 (BreadWake p s) Hinv2)|].
    destruct (bread_resume_frame p s st2 0%nat) as (_ & _ & _ & _ & Hb & Hlen).
    split; [lia|]. split; [|done].
    rewrite <- Hf2. apply find_cached_transfer; [done|].
    intros x. by destruct (bread_resume_frame p s st2 x) as (? & ? & _).
Qed.





(** ** Reading a block a second time *)

(** X10.  Whatever calls have been made since [binit]: after [bread]
    has returned a slot for a block -- at once, or after its caller was
    suspended on the sleep lock of the slot and woken, the count of the
    slot not being 0 at any point from the suspension to the wake-up --
    and the caller has released it, the next [bread] of the same block
    is served from the cache.  It finds the same slot by the fast path, under the lock of
    the bucket alone, does not read the disk ([bread] adds nothing to
    what [bget] does) and returns the slot with the content the first
    read left in it. *)
Theorem second_read_is_a_hit nbuf cs0 cs p q t1 t2 t3 d b s :
  let st := run cs0 (binit nbuf) in
  result_of (bread_full p t1 d b cs st) = Ret s ->
  (result_of (bread p t1 d b st) = Sleep s ->
   referenced_through s cs (state_of (bread p t1 d b st)) = true) ->
  let key := BUFMAP_HASH d b in
  let st1 := state_of (bread_full p t1 d b cs st) in
  let st2 := state_of (brelse p t2 s st1) in
  result_of (brelse p t2 s st1) = Ret tt /\
  bread q t3 d b st2 = bget q t3 d b st2 /\
  result_of (bread q t3 d b st2) = Ret s /\
  trace_of (bread q t3 d b st2) =
    [Acquire (BucketLock key); Walk key; Release (BucketLock key);
     AcquireSleep s] /\
  data (slot (state_of (bread q t3 d b st2)) s) = data (slot st1 s).
Proof.
  intros st Hr Href.
  destruct (bread_full_found nbuf cs0 p t1 d b cs s Hr Href)
    as (_ & Hs & Hf & Hl & Hv).
  by apply reread_hit.
Qed.

Lemma second_read_is_a_hit_witness :
  let st := run [Bget 7%nat 5 1 5] (binit 30) in
  let st1 := state_of (bread_full 8%nat 6 1 5 [Brelse 7%nat 7 29] st) in
  let st2 := state_of (brelse 8%nat 8 29%nat st1) in
  result_of (bread 8%nat 6 1 5 st) = Sleep 29 /\
  bread 9%nat 9 1 5 st2 = bget 9%nat 9 1 5 st2 /\
  result_of (bread 9%nat 9 1 5 st2) = Ret 29%nat /\
  data (slot (state_of (bread 9%nat 9 1 5 st2)) 29) = data (slot st1 29).
Proof.
  cbv zeta.
  destruct (second_read_is_a_hit 30 [Bget 7%nat 5 1 5] [Brelse 7%nat 7 29]
              8%nat 9%nat 6 8 9 1 5 29%nat)
    as (_ & Hb & Hr & _ & Hd);
    [vm_compute; reflexivity | intros _; vm_compute; reflexivity |].
  split; [vm_compute; reflexivity|].
  split; [exact Hb|]. split; [exact Hr | exact Hd].
Defined.

(** ** Eviction while the other processors run *)

(** An update of the counters of a slot outside the bucket the scan
    holds -- what a hit of the fast path, [brelse], [bpin] and [bunpin]
    do there -- is such an interference. *)
Lemma interference_upd h s f st :
  (forall x, dev (f x) = dev x /\ blockno (f x) = blockno x) ->
  (forall i, h = Some i -> s ∉ chain st i) ->
  interference h st (upd s f st).
Proof.
  intros Hf Hout.
  split; [reflexivity|]. split; [apply length_bufs_upd|]. split.
  - intros s'. destruct (slot_upd s s' f st) as [E|(-> & _ & E)]; rewrite E;
      [done | apply Hf].
  - intros i s' Hh Hin. apply slot_upd_ne. intros <-. by apply (Hout i).
Qed.

(** X13.  The scan keeps the lock of the bucket of its candidate, and
    the counters of a slot change under the lock of its bucket only.  So
    with the other processors changing counts, time stamps, [valid],
    contents and sleep locks of the slots of the buckets the scan does
    not hold, between its rounds and after the last one, the slot that
    the slow path takes over is still the one in front of which
    [before_least] stands, and its count is 0 in the state in which its
    key is reassigned; no other slot gets a new key. *)
Theorem eviction_with_others_running st st' a p ticks d b s :
  scan_with NBUCKET st a ->
  interference (holding_bucket a) st st' ->
  dev (slot (state_of (bget_evict a p ticks d b st')) s) <> dev (slot st' s) \/
  blockno (slot (state_of (bget_evict a p ticks d b st')) s)
    <> blockno (slot st' s) ->
  victim_of a st' = Some s /\ refcnt (slot st' s) = 0 /\
  victim_of a st = Some s.
Proof.
  intros Hs Hi Hchg.
  destruct (eviction_under_interference st st' a p ticks d b s Hs Hi)
    as [Hv Hr]; [by right|].
  split; [done|]. split; [done|].
  unfold victim_of, cursor_next, chain in *.
  destruct Hi as (Hb & _). by rewrite <- Hb.
Qed.

Lemma eviction_with_others_running_witness :
  let st := run [Bread 7%nat 5 1 6] (binit 30) in
  let st' := state_of (bpin 29 st) in
  victim_of (scan st) st' = Some 28%nat /\ refcnt (slot st' 28) = 0 /\
  refcnt (slot st' 29) = 2.
Proof.
  cbv zeta.
  destruct (eviction_with_others_running
              (run [Bread 7%nat 5 1 6] (binit 30))
              (state_of (bpin 29 (run [Bread 7%nat 5 1 6] (binit 30))))
              (scan (run [Bread 7%nat 5 1 6] (binit 30)))
              8%nat 9 1 7 28%nat) as (Hv & Hr & _).
  - apply scan_with_alone.
  - apply interference_upd; [done|].
    intros i Hh Hin. vm_compute in Hh. injection Hh as <-.
    assert (Ec : chain (run [Bread 7%nat 5 1 6] (binit 30)) 0
                 = rev (seq 0 29)) by (vm_compute; reflexivity).
    rewrite Ec in Hin. apply list_elem_of_In, in_rev, in_seq in Hin. lia.
  - left. vm_compute. discriminate.
  - split; [exact Hv|]. split; [exact Hr|]. vm_compute. reflexivity.
Defined.
